(** * onvif-server: WS-Discovery responder and startup orchestration

    A shallow embedding of [src/discovery-server.js] (class
    [DiscoveryServer]) and of [main.js] (the module body, the startup
    routine run when a configuration file is given, and the output
    stream of the configuration dialogue), with the properties of the
    specification and further properties of the code stated and proved
    over it.

    Conventions.
    - JavaScript values that reach the code from [xml2js] are trees of
      strings, arrays and objects; [JS.value] models them together with
      [undefined] and [null], which arise from property access.
    - Strings are byte strings.  The string operations the code uses are
      concatenation, comparison with [''] and [indexOf] with an ASCII
      needle, which agree on UTF-8 and UTF-16 representations.
    - Numbers held in the message counter map are natural numbers, [NaN]
      or absent.  JavaScript numbers are exact on integers below 2^53; the
      counters start at 0 and grow by one per response, so the model uses
      unbounded [N].
    - Effects (log lines, socket operations, process exit) are recorded
      as a trace of events, in program order.  Log events keep the
      message text; an error object passed as a further argument is left
      out.
    - What the code calls and this repository does not define under
      [src/] (the server objects of [src/onvif-server.js], [xml2js],
      [uuid.v1], the outcome of joining a multicast group) is a parameter
      of the model: the classes [Discovery.Platform], [Main.Host] and
      [Main.System].
      Closing a socket, starting a server and creating a relay are
      recorded as events and assumed not to throw.  Sending a datagram
      throws where [dgram] does so synchronously: on a port outside
      1..65535, and when the field holding the send socket is null. *)

From Stdlib Require Import ZArith Lia Ascii.
From stdpp Require Import base list strings gmap pretty sorting.

Local Set Warnings "-register-all".

(** ** JavaScript values and the primitive operations the code applies *)

Module JS.

Inductive value : Type :=
| VUndefined
| VNull
| VStr (s : string)
| VArr (elems : list value)
| VObj (fields : list (string * value)).

(** A property key: a name ([v['Header']], [v._]) or an array index
    ([v[0]]). *)
Inductive key : Type :=
| KName (name : string)
| KIdx (i : nat).

(** The exceptions the modelled code can raise: a [TypeError] (reading a
    property of [undefined] or [null], calling what is not a function)
    and the [RangeError] with code [ERR_SOCKET_BAD_PORT] thrown by
    [dgram]. *)
Inductive error : Type :=
| TypeError
| RangeError.

(** Result of an expression that may throw. *)
Inductive completion (A : Type) : Type :=
| Normal (a : A)
| Throw (e : error).
Arguments Normal {A} a.
Arguments Throw {A} e.

Definition bind {A B} (c : completion A) (k : A -> completion B)
  : completion B :=
  match c with
  | Normal a => k a
  | Throw e => Throw e
  end.

Notation "x <- c ;; k" := (bind c (fun x => k))
  (at level 100, c at next level, right associativity).

Fixpoint assoc (k : string) (fields : list (string * value)) : value :=
  match fields with
  | [] => VUndefined
  | (k', v) :: rest => if String.eqb k k' then v else assoc k rest
  end.

(** [v[k]].  Reading a property of [undefined] or [null] throws; a
    missing property is [undefined].  Only own data properties are
    modelled (none of the keys used by the code names a prototype
    member). *)
Definition get (v : value) (k : key) : completion value :=
  match v with
  | VUndefined | VNull => Throw TypeError
  | VStr s =>
      match k with
      | KIdx i =>
          match String.get i s with
          | Some c => Normal (VStr (String c EmptyString))
          | None => Normal VUndefined
          end
      | KName _ => Normal VUndefined
      end
  | VArr l =>
      match k with
      | KIdx i => Normal (default VUndefined (l !! i))
      | KName _ => Normal VUndefined
      end
  | VObj fields =>
      match k with
      | KName n => Normal (assoc n fields)
      | KIdx i => Normal (assoc (pretty i) fields)
      end
  end.

(** [typeof v === 'object'] (true for [null] and for arrays as well). *)
Definition typeof_object (v : value) : bool :=
  match v with
  | VNull | VArr _ | VObj _ => true
  | VUndefined | VStr _ => false
  end.

(** String conversion as performed by template-literal interpolation. *)
Fixpoint to_string (v : value) : string :=
  match v with
  | VUndefined => "undefined"
  | VNull => "null"
  | VStr s => s
  | VObj _ => "[object Object]"
  | VArr l =>
      String.concat ","
        (map (fun x => match x with
                       | VUndefined | VNull => ""
                       | _ => to_string x
                       end) l)
  end.

(** [s.indexOf(needle)] on strings: position of the first occurrence,
    or -1. *)
Definition indexOf (s needle : string) : Z :=
  match String.index 0 needle s with
  | Some n => Z.of_nat n
  | None => (-1)%Z
  end.

(** [needle] occurs in [s]. *)
Definition contains (needle s : string) : Prop :=
  exists pre post, s = pre +:+ needle +:+ post.

(** [v === s] for a string literal [s]. *)
Definition strict_eq_str (v : value) (s : string) : bool :=
  match v with
  | VStr s' => String.eqb s' s
  | _ => false
  end.

(** Truthiness of a string ([''] is falsy). *)
Definition truthy_str (s : string) : bool := negb (String.eqb s "").

(** Numbers as stored in the counter map. *)
Inductive number : Type :=
| Num (n : N)
| NaN.

(** [x + 1] where [x] is the result of [Map.prototype.get]:
    [undefined + 1] and [NaN + 1] are [NaN]. *)
Definition add1 (x : option number) : number :=
  match x with
  | Some (Num n) => Num (n + 1)
  | Some NaN | None => NaN
  end.

(** Interpolation of the result of [Map.prototype.get]. *)
Definition number_to_string (x : option number) : string :=
  match x with
  | Some (Num n) => pretty n
  | Some NaN => "NaN"
  | None => "undefined"
  end.

(** [s.includes(needle)] on strings. *)
Definition includes (s needle : string) : bool :=
  (indexOf s needle >? -1)%Z.

End JS.

Import JS.

(** ** [src/discovery-server.js]: class [DiscoveryServer] *)

Module Discovery.

(** The object returned by [server.getDiscoveryInfo()]. *)
Record DiscoveryInfo : Type := {
  uuid : string;
  hostname : string;
  port : N;
}.

(** The [remote] argument of the ['message'] event. *)
Record Remote : Type := {
  address : string;
  remote_port : N;
}.

(** What [xml2js.parseString] hands to its callback: an error, or the
    parsed document (tag prefixes already stripped). *)
Inductive parsed : Type :=
| ParseError
| ParseOk (result : value).

(** What the class takes from outside this file: the server objects with
    their [getDiscoveryInfo] method (defined in [src/onvif-server.js]),
    the XML parser, the generator [uuid.v1] (its n-th result), and whether
    the operating system lets the socket join the multicast group on a
    given interface address. *)
Class Platform : Type := {
  Server : Type;
  getDiscoveryInfo : Server -> DiscoveryInfo;
  parseString : string -> parsed;
  uuid_v1 : nat -> string;
  addMembership_ok : string -> string -> bool;
}.

(** Sockets are identified by the order in which [dgram.createSocket]
    made them. *)
Definition handle : Type := nat.

(** The fields of a [DiscoveryServer] instance ([logger] is represented
    by the log events of the trace). *)
Record DiscoveryServer `{Platform} : Type := {
  servers : list Server;
  socket : option handle;
  responseSocket : option handle;
  messageCounters : gmap string number;
}.

(** State outside the instance: how many sockets and how many version-1
    UUIDs the process has created so far, and the receive sockets that a
    later [start()] replaced in the field [socket] while they were open.
    No reference to such a socket is left, so it is never closed, and it
    keeps the handlers [start()] installed on it. *)
Record Runtime : Type := {
  sockets_created : nat;
  uuids_drawn : nat;
  orphans : list handle;
}.

Inductive event : Type :=
| LogTrace (msg : string)
| LogError (msg : string)
| CreateSocket (h : handle) (reuseAddr : bool)
| Bind (h : handle) (p : N)
| AddMembership (h : handle) (group iface : string)
| Send (h : handle) (payload : string) (p : N) (addr : string)
| Close (h : handle)
| Uncaught (e : error).

(** Writes a template with apostrophes where the source has double
    quotes. *)
Fixpoint q (s : string) : string :=
  match s with
  | EmptyString => EmptyString
  | String c rest =>
      String (if Ascii.eqb c "'"%char then "034"%char else c) (q rest)
  end.

(** The template literal [response] of the message handler, with its six
    interpolations as arguments. *)
Definition response
  (messageID probeUuid messageNo info_uuid info_hostname info_port : string)
  : string :=
  q "<?xml version='1.0' encoding='UTF-8'?>
                            <SOAP-ENV:Envelope xmlns:SOAP-ENV='http://www.w3.org/2003/05/soap-envelope' xmlns:wsa='http://schemas.xmlsoap.org/ws/2004/08/addressing' xmlns:d='http://schemas.xmlsoap.org/ws/2005/04/discovery' xmlns:dn='http://www.onvif.org/ver10/network/wsdl'>
                                <SOAP-ENV:Header>
                                    <wsa:MessageID>uuid:"
  +:+ messageID
  +:+ q "</wsa:MessageID>
                                    <wsa:RelatesTo>"
  +:+ probeUuid
  +:+ q "</wsa:RelatesTo>
                                    <wsa:To SOAP-ENV:mustUnderstand='true'>http://schemas.xmlsoap.org/ws/2004/08/addressing/role/anonymous</wsa:To>
                                    <wsa:Action SOAP-ENV:mustUnderstand='true'>http://schemas.xmlsoap.org/ws/2005/04/discovery/ProbeMatches</wsa:Action>
                                    <d:AppSequence SOAP-ENV:mustUnderstand='true' MessageNumber='"
  +:+ messageNo
  +:+ q "' InstanceId='1234567890'/>
                                </SOAP-ENV:Header>
                                <SOAP-ENV:Body>
                                    <d:ProbeMatches>
                                        <d:ProbeMatch>
                                            <wsa:EndpointReference>
                                                <wsa:Address>urn:uuid:"
  +:+ info_uuid
  +:+ q "</wsa:Address>
                                            </wsa:EndpointReference>
                                            <d:Types>dn:NetworkVideoTransmitter</d:Types>
                                            <d:Scopes>
                                                onvif://www.onvif.org/type/video_encoder
                                                onvif://www.onvif.org/type/ptz
                                                onvif://www.onvif.org/hardware/Onvif
                                                onvif://www.onvif.org/name/Cardinal
                                                onvif://www.onvif.org/location/
                                            </d:Scopes>
                                            <d:XAddrs>http://"
  +:+ info_hostname
  +:+ q ":"
  +:+ info_port
  +:+ q "/onvif/device_service</d:XAddrs>
                                            <d:MetadataVersion>1</d:MetadataVersion>
                                        </d:ProbeMatch>
                                    </d:ProbeMatches>
                                </SOAP-ENV:Body>
                            </SOAP-ENV:Envelope>".

Section WithPlatform.
Context `{Platform}.

(** [constructor(servers, logger)]: every device's UUID is entered in the
    counter map with the value 0. *)
Definition constructor (svs : list Server) : DiscoveryServer :=
  {| servers := svs;
     socket := None;
     responseSocket := None;
     messageCounters :=
       foldl (fun m server => <[uuid (getDiscoveryInfo server) := Num 0]> m)
             ∅ svs |}.

(** [v[k1][k2]...]: left to right, stopping at the first throw. *)
Definition path (v : value) (ks : list key) : completion value :=
  foldl (fun c k => x <- c ;; get x k) (Normal v) ks.

(** [result['Envelope']['Header'][0]['MessageID'][0]]. *)
Definition messageID_path : list key :=
  [KName "Envelope"; KName "Header"; KIdx 0; KName "MessageID"; KIdx 0].

(** [result['Envelope']['Body'][0]['Probe'][0]['Types'][0]]. *)
Definition types_path : list key :=
  [KName "Envelope"; KName "Body"; KIdx 0; KName "Probe"; KIdx 0;
   KName "Types"; KIdx 0].

(** [if (typeof v === 'object') v = v._]. *)
Definition text_of (v : value) : completion value :=
  if typeof_object v then get v (KName "_") else Normal v.

(** The reads of [probeUuid] and [probeType] at the head of the parser
    callback.  The message ID is read outside the [try] block, the type
    filter inside it. *)
Definition extract (result : value) : completion (value * value) :=
  probeUuid <- path result messageID_path ;;
  let probeType :=
    match path result types_path with
    | Normal v => v
    | Throw _ => VStr ""
    end in
  probeType <- text_of probeType ;;
  probeUuid <- text_of probeUuid ;;
  Normal (probeUuid, probeType).

(** [probeType === '' || probeType.indexOf('NetworkVideoTransmitter') > -1].
    On an array [indexOf] is [Array.prototype.indexOf]; on any other
    non-string value there is no callable [indexOf]. *)
Definition accepts (probeType : value) : completion bool :=
  if strict_eq_str probeType "" then Normal true
  else match probeType with
       | VStr s => Normal (indexOf s "NetworkVideoTransmitter" >? -1)%Z
       | VArr l =>
           Normal (existsb
                     (fun x => strict_eq_str x "NetworkVideoTransmitter") l)
       | VUndefined | VNull | VObj _ => Throw TypeError
       end.

(** The port check of [dgram]'s [send]: an integer from 1 to 65535. *)
Definition valid_port (p : N) : bool := (0 <? p)%N && (p <=? 65535)%N.

(** [this.responseSocket.send(responseBuffer, 0, responseBuffer.length,
    remote.port, remote.address)].  With the field null the method call
    throws a [TypeError]; on a socket, [send] checks the port before
    anything else and throws [ERR_SOCKET_BAD_PORT] when it is 0 or
    above 65535.  Failures reported later (no callback is passed) are
    not visible to the caller. *)
Definition send (rsock : option handle) (payload : string)
    (remote : Remote) : completion event :=
  match rsock with
  | None => Throw TypeError
  | Some h =>
      if valid_port (remote_port remote)
      then Normal (Send h payload (remote_port remote) (address remote))
      else Throw RangeError
  end.

(** The body of [this.servers.forEach(server => ...)] in the message
    handler, over the remaining servers.  Returns the completion, the
    counter map, the number of UUIDs drawn and the events.  The response
    is composed and the counter stored before the datagram is sent, so a
    [send] that throws leaves the loop with this device's counter
    advanced and one UUID drawn. *)
Fixpoint respond_each (svs : list Server) (probeUuid : value)
    (remote : Remote) (rsock : option handle)
    (counters : gmap string number) (drawn : nat)
  : completion unit * gmap string number * nat * list event :=
  match svs with
  | [] => (Normal tt, counters, drawn, [])
  | server :: rest =>
      let info := getDiscoveryInfo server in
      let messageNo := counters !! uuid info in
      let payload :=
        response (uuid_v1 drawn) (to_string probeUuid)
                 (number_to_string messageNo)
                 (uuid info) (hostname info) (pretty (port info)) in
      let counters' := <[uuid info := add1 messageNo]> counters in
      match send rsock payload remote with
      | Throw e => (Throw e, counters', S drawn, [])
      | Normal sent =>
          let '(c, m, d, evs) :=
            respond_each rest probeUuid remote rsock counters' (S drawn) in
          (c, m, d, sent :: evs)
      end
  end.

(** The first line logged for a probe that passed the type test. *)
Definition probe_received (remote : Remote) : event :=
  LogTrace ("Discovery probe received from " +:+ address remote
            +:+ ":" +:+ pretty (remote_port remote)).

(** The callback passed to [xml2js.parseString]. *)
Definition on_parsed (this : DiscoveryServer) (rt : Runtime)
    (p : parsed) (remote : Remote)
  : completion unit * DiscoveryServer * Runtime * list event :=
  match p with
  | ParseError =>
      (Normal tt, this, rt, [LogTrace "Failed to parse discovery message:"])
  | ParseOk result =>
      match (x <- extract result ;; b <- accepts (snd x) ;; Normal (fst x, b)) with
      | Throw e => (Throw e, this, rt, [])
      | Normal (_, false) => (Normal tt, this, rt, [])
      | Normal (probeUuid, true) =>
          let '(c, m, d, evs) :=
            respond_each (servers this) probeUuid remote (responseSocket this)
                         (messageCounters this) (uuids_drawn rt) in
          (c,
           {| servers := servers this;
              socket := socket this;
              responseSocket := responseSocket this;
              messageCounters := m |},
           {| sockets_created := sockets_created rt;
              uuids_drawn := d;
              orphans := orphans rt |},
           probe_received remote :: evs)
      end
  end.

(** The ['message'] handler installed by [start]: the parser calls the
    callback once, synchronously, and an exception raised in the callback
    leaves the handler. *)
Definition on_message (this : DiscoveryServer) (rt : Runtime)
    (message : string) (remote : Remote)
  : completion unit * DiscoveryServer * Runtime * list event :=
  on_parsed this rt (parseString message) remote.

(** [start()], up to the call of [bind]: two sockets are created, the
    handlers are installed on the first, and it is bound to port 3702.
    The fields are overwritten without a look at what they hold: a
    receive socket still open in [this.socket] stays open behind the
    instance. *)
Definition start (this : DiscoveryServer) (rt : Runtime)
  : DiscoveryServer * Runtime * list event :=
  let s := sockets_created rt in
  let r := S s in
  ({| servers := servers this;
      socket := Some s;
      responseSocket := Some r;
      messageCounters := messageCounters this |},
   {| sockets_created := S r;
      uuids_drawn := uuids_drawn rt;
      orphans := orphans rt ++ match socket this with
                               | Some old => [old]
                               | None => []
                               end |},
   [CreateSocket s true; CreateSocket r false; Bind s 3702]).

(** [Set.prototype.add] on a set kept in insertion order. *)
Definition set_add (x : string) (set : list string) : list string :=
  if decide (x ∈ set) then set else set ++ [x].

(** The set [hostnames] built in the [bind] callback. *)
Definition collect_hostnames (svs : list Server) : list string :=
  foldl (fun hostnames server =>
           let info := getDiscoveryInfo server in
           if truthy_str (hostname info)
           then set_add (hostname info) hostnames
           else hostnames)
        [] svs.

(** One turn of [hostnames.forEach]: the [try] block and its [catch].
    With [this.socket] null the method call itself throws and is caught. *)
Definition join (sock : option handle) (hostname : string) : list event :=
  match sock with
  | Some h =>
      AddMembership h "239.255.255.250" hostname ::
      (if addMembership_ok "239.255.255.250" hostname
       then [LogTrace ("Joined multicast group on " +:+ hostname)]
       else [LogError ("Failed to join multicast group on " +:+ hostname
                       +:+ ":")])
  | None =>
      [LogError ("Failed to join multicast group on " +:+ hostname +:+ ":")]
  end.

(** The callback of [this.socket.bind(3702, ...)]. *)
Definition on_listening (this : DiscoveryServer) : list event :=
  LogTrace "Discovery server bound to port 3702" ::
  flat_map (join (socket this)) (collect_hostnames (servers this)).

(** The ['error'] handler of the receive socket. *)
Definition on_error : list event := [LogError "Discovery server error:"].

(** [stop()]. *)
Definition stop (this : DiscoveryServer) : DiscoveryServer * list event :=
  let '(sock, evs1) :=
    match socket this with
    | Some h => (None, [Close h])
    | None => (socket this, [])
    end in
  let '(rsock, evs2) :=
    match responseSocket this with
    | Some h => (None, [Close h])
    | None => (responseSocket this, [])
    end in
  ({| servers := servers this;
      socket := sock;
      responseSocket := rsock;
      messageCounters := messageCounters this |},
   evs1 ++ evs2).

(** A receive socket carrying the handlers of [start()] is open: the one
    held in [this.socket], or one left behind by an earlier [start()]. *)
Definition listening (this : DiscoveryServer) (rt : Runtime) : bool :=
  match socket this, orphans rt with
  | None, [] => false
  | _, _ => true
  end.

(** What can happen to an instance during the life of the process: calls
    of [start] and [stop], the [bind] callback, an inbound datagram, a
    socket error.  The last three are events of a receive socket and
    occur only while one is open; their handlers are closures over the
    instance and read its fields as they are when the event occurs.  An
    exception that leaves the message handler reaches the process-level
    handler installed by [main.js], which logs it. *)
Inductive call : Type :=
| CallStart
| Listening
| Datagram (message : string) (remote : Remote)
| SocketError
| CallStop.

Definition step (st : DiscoveryServer * Runtime) (c : call)
  : DiscoveryServer * Runtime * list event :=
  let '(this, rt) := st in
  match c with
  | CallStart => start this rt
  | Listening =>
      if listening this rt then (this, rt, on_listening this)
      else (this, rt, [])
  | Datagram message remote =>
      if listening this rt then
        let '(c, this', rt', evs) := on_message this rt message remote in
        (this', rt',
         evs ++ match c with Normal _ => [] | Throw e => [Uncaught e] end)
      else (this, rt, [])
  | SocketError =>
      if listening this rt then (this, rt, on_error) else (this, rt, [])
  | CallStop => let '(this', evs) := stop this in (this', rt, evs)
  end.

Fixpoint run (st : DiscoveryServer * Runtime) (calls : list call)
  : DiscoveryServer * Runtime * list event :=
  match calls with
  | [] => (st, [])
  | c :: rest =>
      let '(this1, rt1, evs1) := step st c in
      let '(st2, evs2) := run (this1, rt1) rest in
      (st2, evs1 ++ evs2)
  end.

(** The datagrams among the events of a trace. *)
Definition is_send (e : event) : bool :=
  match e with Send _ _ _ _ => true | _ => false end.

Definition sends (evs : list event) : list event := List.filter is_send evs.

(** The counter held for a device. *)
Definition counter (this : DiscoveryServer) (server : Server)
  : option number :=
  messageCounters this !! uuid (getDiscoveryInfo server).

(** The UUIDs of the registered devices, in registration order. *)
Definition uuids (svs : list Server) : list string :=
  map (fun server => uuid (getDiscoveryInfo server)) svs.

(** How many of the first [k] devices carry the UUID [u]. *)
Definition earlier_same (svs : list Server) (k : nat) (u : string) : nat :=
  length (List.filter (String.eqb u) (uuids (take k svs))).

(** [j] increments applied to the result of a counter lookup. *)
Definition bump (j : nat) (x : option number) : option number :=
  Nat.iter j (fun y => Some (add1 y)) x.

(** The ProbeMatch composed for [server] when it is the [k]-th device
    answered for a probe that arrived with [drawn] UUIDs drawn so far and
    the counter at [messageNo]. *)
Definition probe_match (probeUuid : value) (drawn k : nat)
    (messageNo : option number) (server : Server) : string :=
  let info := getDiscoveryInfo server in
  response (uuid_v1 (drawn + k)) (to_string probeUuid)
           (number_to_string messageNo)
           (uuid info) (hostname info) (pretty (port info)).

(** States in which [this] can be found during the life of a process
    that built it with [constructor svs]: a new instance has left no
    socket behind. *)
Definition reachable (svs : list Server) (this : DiscoveryServer)
    (rt : Runtime) : Prop :=
  exists rt0 calls evs,
    orphans rt0 = [] /\ run (constructor svs, rt0) calls = (this, rt, evs).

(** The counter map holds a number for exactly the registered UUIDs. *)
Definition registered (svs : list Server) (m : gmap string number) : Prop :=
  forall u, (u ∈ uuids svs -> exists n, m !! u = Some (Num n))
            /\ (u ∉ uuids svs -> m !! u = None).

(** Both sockets exist and differ, or neither exists. *)
Definition sockets_ok (this : DiscoveryServer) : Prop :=
  match socket this, responseSocket this with
  | None, None => True
  | Some s, Some r => s <> r
  | _, _ => False
  end.

Definition invariant (svs : list Server) (this : DiscoveryServer) : Prop :=
  servers this = svs /\ registered svs (messageCounters this)
  /\ sockets_ok this.

(** The probes the parser callback sets out to answer, with the message
    ID it extracted: the document was parsed, both reads completed and
    the type test held, so the loop over the devices is entered. *)
Definition accepted (p : parsed) : option value :=
  match p with
  | ParseError => None
  | ParseOk result =>
      match extract result with
      | Normal (probeUuid, probeType) =>
          match accepts probeType with
          | Normal true => Some probeUuid
          | _ => None
          end
      | Throw _ => None
      end
  end.

(** What a ProbeMatch payload carries, element by element. *)
Definition carries (payload relatesTo messageNo : string)
    (info : DiscoveryInfo) : Prop :=
  contains ("<wsa:RelatesTo>" +:+ relatesTo +:+ "</wsa:RelatesTo>") payload
  /\ contains
       (q "<d:AppSequence SOAP-ENV:mustUnderstand='true' MessageNumber='"
        +:+ messageNo +:+ q "' InstanceId='1234567890'/>") payload
  /\ contains ("<wsa:Address>urn:uuid:" +:+ uuid info +:+ "</wsa:Address>")
       payload
  /\ contains "<d:Types>dn:NetworkVideoTransmitter</d:Types>" payload
  /\ contains ("<d:XAddrs>http://" +:+ hostname info +:+ ":"
               +:+ pretty (port info) +:+ "/onvif/device_service</d:XAddrs>")
       payload
  /\ contains "<d:MetadataVersion>1</d:MetadataVersion>" payload.

(** A datagram is malformed when it does not parse, or when the message
    ID or the type filter cannot be read from the parsed document. *)
Definition malformed (message : string) : Prop :=
  match parseString message with
  | ParseError => True
  | ParseOk result =>
      (exists e, path result messageID_path = Throw e)
      \/ (exists e, path result types_path = Throw e)
  end.

(** Every malformed datagram is logged and dropped: nothing is sent,
    nothing changes and nothing is thrown. *)
Definition malformed_dropped (svs : list Server) : Prop :=
  forall this rt message remote,
    reachable svs this rt -> is_Some (socket this) -> malformed message ->
    exists evs, on_message this rt message remote = (Normal tt, this, rt, evs)
                /\ sends evs = [] /\ evs <> [].


(** The multicast interfaces joined in a trace, in order. *)
Definition memberships (evs : list event) : list (handle * string * string) :=
  flat_map (fun e => match e with
                     | AddMembership h group iface => [(h, group, iface)]
                     | _ => []
                     end) evs.

(** *** Further readings of the instance and of its traces *)

(** How many registered devices carry the UUID [u]. *)
Definition multiplicity (svs : list Server) (u : string) : nat :=
  length (List.filter (String.eqb u) (uuids svs)).

(** The host addresses of the registered devices, in registration
    order. *)
Definition hostnames (svs : list Server) : list string :=
  map (fun server => hostname (getDiscoveryInfo server)) svs.

(** The events a message handler may emit: trace lines, and datagrams on
    the socket [r]. *)
Definition trace_or_send (r : option handle) (e : event) : Prop :=
  match e with
  | LogTrace _ => True
  | Send h _ _ _ => r = Some h
  | _ => False
  end.

Definition payload_of (e : event) : option string :=
  match e with Send _ payload _ _ => Some payload | _ => None end.

(** The payload's own message ID is [id]. *)
Definition has_message_id (payload id : string) : Prop :=
  contains ("<wsa:MessageID>uuid:" +:+ id +:+ "</wsa:MessageID>") payload.

(** The value [v] holds the text [s] in one of the two forms [xml2js]
    uses: the string itself, or an object with the string under [_]. *)
Definition represents (v : value) (s : string) : Prop :=
  v = VStr s \/ exists fields, v = VObj fields /\ assoc "_" fields = VStr s.


(** The exception [send] throws for a socket field and a remote, if any;
    the payload plays no part in it. *)
Definition send_error (rsock : option handle) (remote : Remote)
  : option error :=
  match send rsock "" remote with
  | Normal _ => None
  | Throw e => Some e
  end.

(** The datagram [e] carries, as its own message ID, the [a]-th UUID
    drawn from the generator. *)
Definition carries_draw (e : event) (a : nat) : Prop :=
  exists payload,
    payload_of e = Some payload /\ has_message_id payload (uuid_v1 a).

(** The UUID of the device registered first. *)
Definition first_uuid (svs : list Server) : option string :=
  head (uuids svs).

End WithPlatform.

End Discovery.

(** ** [main.js]: startup with a configuration file *)

Module Main.

(** [ports] of a device and of its target ([server] is read only on the
    device's own ports).  An absent entry is [None]. *)
Record Ports : Type := {
  server : option N;
  rtsp : option N;
  snapshot : option N;
}.

Record Target : Type := {
  hostname : string;
  target_ports : Ports;
}.

(** One entry of [config.onvif], as far as [main.js] reads it. *)
Record OnvifConfig : Type := {
  name : string;
  mac : string;
  ports : Ports;
  target : Target;
}.

Record Config : Type := {
  useDirectUrls : option bool;
  onvif : list OnvifConfig;
}.

(** An element of the array [proxies]. *)
Record Proxy : Type := {
  sourceHostname : option string;
  sourcePort : option N;
  targetHostname : string;
  targetPort : option N;
}.

(** What [main.js] takes from [src/onvif-server.js]: the server objects,
    their factory, and [getHostname], the address of the interface that
    carries the configured MAC ([None] when there is none). *)
Class Host : Type := {
  Server : Type;
  createServer : OnvifConfig -> bool -> Server;
  getHostname : Server -> option string;
}.

Inductive event `{Host} : Type :=
| LogInfo (msg : string)
| LogError (msg : string)
| CreateServer (onvifConfig : OnvifConfig) (direct : bool)
| StartServer (s : Server)
| EnableDebugOutput (s : Server)
| Sleep (ms : N)
| CreateDiscoveryServer (servers : list Server)
| DiscoveryStart
| CreateProxy (proxy : Proxy)
| ProcessExit (code : Z).

(** How the startup routine ends: it runs to its end, or the process
    exits. *)
Inductive outcome : Type :=
| Completed
| Exited (code : Z).

(** Truthiness of an optional port number: [undefined] and [0] are
    falsy. *)
Definition truthy_port (p : option N) : bool :=
  match p with
  | Some n => negb (n =? 0)%N
  | None => false
  end.

(** Truthiness of the result of [getHostname]. *)
Definition truthy_hostname (h : option string) : bool :=
  match h with
  | Some s => truthy_str s
  | None => false
  end.

Definition show_port (p : option N) : string :=
  match p with
  | Some n => pretty n
  | None => "undefined"
  end.

Definition show_hostname (h : option string) : string :=
  match h with
  | Some s => s
  | None => "undefined"
  end.

Section WithHost.
Context `{Host}.

(** The block guarded by [if (!useDirectUrls)]: the routes pushed for one
    started device. *)
Definition push_proxies (direct : bool) (s : Server)
    (onvifConfig : OnvifConfig) (proxies : list Proxy) : list Proxy :=
  if negb direct then
    let proxies1 :=
      if truthy_port (rtsp (ports onvifConfig))
         && truthy_port (rtsp (target_ports (target onvifConfig)))
      then proxies ++
             [{| sourceHostname := getHostname s;
                 sourcePort := rtsp (ports onvifConfig);
                 targetHostname := hostname (target onvifConfig);
                 targetPort := rtsp (target_ports (target onvifConfig)) |}]
      else proxies in
    if truthy_port (snapshot (ports onvifConfig))
       && truthy_port (snapshot (target_ports (target onvifConfig)))
    then proxies1 ++
           [{| sourceHostname := getHostname s;
               sourcePort := snapshot (ports onvifConfig);
               targetHostname := hostname (target onvifConfig);
               targetPort := snapshot (target_ports (target onvifConfig)) |}]
    else proxies1
  else proxies.

(** What the loop body does for a device whose host name resolved, up
    to and including the [await sleep(2000)]. *)
Definition start_events (debug direct : bool) (s : Server)
    (onvifConfig : OnvifConfig) : list event :=
  [CreateServer onvifConfig direct;
   LogInfo ("Starting virtual onvif server for " +:+ name onvifConfig
            +:+ " on " +:+ mac onvifConfig +:+ " "
            +:+ show_hostname (getHostname s) +:+ ":"
            +:+ show_port (server (ports onvifConfig)) +:+ " ...");
   StartServer s]
  ++ (if debug then [EnableDebugOutput s] else [])
  ++ [LogInfo "  Started!"; LogInfo ""; Sleep 2000].

(** The [else] branch of the loop body. *)
Definition exit_events (direct : bool) (onvifConfig : OnvifConfig)
  : list event :=
  [CreateServer onvifConfig direct;
   LogError ("Failed to find IP address for MAC address "
             +:+ mac onvifConfig);
   ProcessExit (-1)].

(** The loop [for (let onvifConfig of config.onvif)] over the remaining
    entries, with the arrays [servers] and [proxies] as they stand. *)
Fixpoint start_devices (debug direct : bool) (configs : list OnvifConfig)
    (servers : list Server) (proxies : list Proxy)
  : outcome * list Server * list Proxy * list event :=
  match configs with
  | [] => (Completed, servers, proxies, [])
  | onvifConfig :: rest =>
      let s := createServer onvifConfig direct in
      if truthy_hostname (getHostname s) then
        let '(o, servers', proxies', evs') :=
          start_devices debug direct rest (servers ++ [s])
                        (push_proxies direct s onvifConfig proxies) in
        (o, servers', proxies', start_events debug direct s onvifConfig ++ evs')
      else
        (Exited (-1), servers, proxies, exit_events direct onvifConfig)
  end.

(** The loop [for (let proxy of proxies)]. *)
Definition start_proxy (proxy : Proxy) : list event :=
  [LogInfo ("Starting tcp proxy from " +:+ show_hostname (sourceHostname proxy)
            +:+ ":" +:+ show_port (sourcePort proxy) +:+ " to "
            +:+ targetHostname proxy +:+ ":" +:+ show_port (targetPort proxy)
            +:+ " ...");
   CreateProxy proxy;
   LogInfo "  Started!";
   LogInfo ""].

(** The block guarded by [if (servers.length > 0)]. *)
Definition discovery_events (servers : list Server) : list event :=
  if (0 <? length servers)%nat
  then [LogInfo "Starting WS-Discovery server for all virtual devices ...";
        CreateDiscoveryServer servers;
        DiscoveryStart;
        LogInfo "  Started!";
        LogInfo ""]
  else [].

(** The two log lines written before the asynchronous routine. *)
Definition direct_notice (direct : bool) : list event :=
  if direct
  then [LogInfo "Direct URLs enabled - proxies will be bypassed"; LogInfo ""]
  else [].

(** The branch [else if (args.config)] once the file is read and parsed:
    the log lines about direct URLs, then the asynchronous routine. *)
Definition startup (debug : bool) (config : Config) : outcome * list event :=
  let direct := default false (useDirectUrls config) in
  match start_devices debug direct (onvif config) [] [] with
  | (Exited code, _, _, evs) => (Exited code, direct_notice direct ++ evs)
  | (Completed, servers, proxies, evs) =>
      (Completed,
       direct_notice direct ++ evs ++ discovery_events servers
       ++ flat_map start_proxy proxies)
  end.

(** *** Readings of a trace *)

(** The servers started, the configurations a server was created for,
    the device sets handed to a discovery server, the relay routes
    requested. *)
Definition started (evs : list event) : list Server :=
  flat_map (fun e => match e with StartServer s => [s] | _ => [] end) evs.

Definition created (evs : list event) : list OnvifConfig :=
  flat_map (fun e => match e with CreateServer c _ => [c] | _ => [] end) evs.

Definition discovery_servers (evs : list event) : list (list Server) :=
  flat_map (fun e => match e with
                     | CreateDiscoveryServer l => [l]
                     | _ => []
                     end) evs.

Definition requested (evs : list event) : list Proxy :=
  flat_map (fun e => match e with CreateProxy p => [p] | _ => [] end) evs.

(** The events that order the startup: creation and start of a server,
    the pauses, the creation and start of the discovery server, process
    exit. *)
Definition is_lifecycle (e : event) : bool :=
  match e with
  | CreateServer _ _ | StartServer _ | Sleep _ | CreateDiscoveryServer _
  | DiscoveryStart | ProcessExit _ => true
  | _ => false
  end.

Definition lifecycle (evs : list event) : list event :=
  List.filter is_lifecycle evs.

(** [direct]: the value of [useDirectUrls]; [device c]: the server made
    for [c]; [resolves c]: its MAC address was found on an interface. *)
Definition direct_mode (config : Config) : bool :=
  default false (useDirectUrls config).

Definition device (config : Config) (c : OnvifConfig) : Server :=
  createServer c (direct_mode config).

Definition resolves (config : Config) (c : OnvifConfig) : bool :=
  truthy_hostname (getHostname (device config c)).

(** A port counts as configured when the entry is present and not 0. *)
Definition configured (p : option N) : Prop := truthy_port p = true.

Definition rtsp_route (s : Server) (c : OnvifConfig) : Proxy :=
  {| sourceHostname := getHostname s;
     sourcePort := rtsp (ports c);
     targetHostname := hostname (target c);
     targetPort := rtsp (target_ports (target c)) |}.

Definition snapshot_route (s : Server) (c : OnvifConfig) : Proxy :=
  {| sourceHostname := getHostname s;
     sourcePort := snapshot (ports c);
     targetHostname := hostname (target c);
     targetPort := snapshot (target_ports (target c)) |}.

(** The routes of one device as the specification words them: none in
    direct-URL mode; otherwise the RTSP route when both RTSP ports are
    configured, then the snapshot route when both snapshot ports are. *)
Definition spec_routes (direct : bool) (s : Server) (c : OnvifConfig)
  : list Proxy :=
  if direct then []
  else (if truthy_port (rtsp (ports c))
           && truthy_port (rtsp (target_ports (target c)))
        then [rtsp_route s c] else [])
       ++ (if truthy_port (snapshot (ports c))
              && truthy_port (snapshot (target_ports (target c)))
           then [snapshot_route s c] else []).

(** *** The specification's sentences read literally *)

(** A device whose MAC does not resolve is reported, every device whose
    MAC resolves is started, and the process does not exit. *)
Definition survives_unresolved_mac (debug : bool) (config : Config) : Prop :=
  let '(o, evs) := startup debug config in
  o = Completed
  /\ forall c, c ∈ onvif config ->
       if resolves config c
       then StartServer (device config c) ∈ evs
       else LogError ("Failed to find IP address for MAC address " +:+ mac c)
            ∈ evs.

(** Exactly one discovery server is created, with the full device
    set. *)
Definition one_discovery_server (debug : bool) (config : Config) : Prop :=
  discovery_servers (snd (startup debug config))
  = [map (device config) (onvif config)].

(** *** Further readings of a trace *)

(** The exit codes passed to [process.exit]. *)
Definition exits (evs : list event) : list Z :=
  flat_map (fun e => match e with ProcessExit code => [code] | _ => [] end)
           evs.

(** The servers whose debug output was enabled. *)
Definition debugged (evs : list event) : list Server :=
  flat_map (fun e => match e with EnableDebugOutput s => [s] | _ => [] end)
           evs.

Definition is_debug (e : event) : bool :=
  match e with EnableDebugOutput _ => true | _ => false end.

(** The events that mark progress: those of [lifecycle] and the relay
    requests. *)
Definition is_milestone (e : event) : bool :=
  match e with
  | CreateProxy _ => true
  | _ => is_lifecycle e
  end.

Definition milestones (evs : list event) : list event :=
  List.filter is_milestone evs.

(** *** The module body of [main.js] *)

(** The parsed command line. *)
Record Args : Type := {
  version : bool;
  create_config : bool;
  debug : bool;
  config : option string;
}.

(** What [fs.readFileSync] does: the file's text, an error with code
    [ENOENT], or another error. *)
Inductive read_result : Type :=
| FileContent (configData : string)
| ENOENT
| OtherError.

(** What the module body takes from outside: the version in
    [package.json], the file system, and [yaml.parse] ([None] when it
    throws; a document that parses is taken to have the shape of
    [Config]). *)
Class System : Type := {
  package_version : string;
  readFileSync : string -> read_result;
  yaml_parse : string -> option Config;
}.

(** How the module body ends: it returns (with a value or without), an
    error leaves it, or the startup routine it launched exits the
    process. *)
Inductive main_outcome : Type :=
| Returned (value : option Z)
| Rethrown
| ProcessExited (code : Z).

(** Events of the module body: the logger's level is set, the
    interactive configuration dialogue is entered (not modelled further),
    or an event of the logger and of the startup routine. *)
Inductive main_event : Type :=
| SetLevel (level : string)
| CreateConfigDialogue
| Routine (e : event).

Section WithSystem.
Context `{System}.

(** The body of [if (args) { ... }].  The asynchronous routine is run to
    its end; when it exits the process the outcome records that exit,
    otherwise the value returned. *)
Definition main (args : Args) : main_outcome * list main_event :=
  let level := if debug args then [SetLevel "trace"] else [] in
  if version args then
    (Returned None,
     level ++ [Routine (LogInfo ("Version: " +:+ package_version))])
  else if create_config args then
    (Returned (Some 0%Z), level ++ [CreateConfigDialogue])
  else
    match config args with
    | Some file =>
        if truthy_str file then
          match readFileSync file with
          | ENOENT =>
              (Returned (Some (-1)%Z),
               level ++ [Routine (LogError ("File not found: " +:+ file))])
          | OtherError => (Rethrown, level)
          | FileContent configData =>
              match yaml_parse configData with
              | None =>
                  (Returned (Some (-1)%Z),
                   level ++ [Routine (LogError
                      "Failed to read config, invalid yaml syntax.")])
              | Some cfg =>
                  let '(o, evs) := startup (debug args) cfg in
                  (match o with
                   | Completed => Returned (Some 0%Z)
                   | Exited code => ProcessExited code
                   end,
                   level ++ map Routine evs)
              end
          end
        else
          (Returned (Some (-1)%Z),
           level ++ [Routine (LogError "Please specifiy a config filename!")])
    | None =>
        (Returned (Some (-1)%Z),
         level ++ [Routine (LogError "Please specifiy a config filename!")])
    end.

(** The events of the startup routine and of the logger in a trace of
    the module body. *)
Definition routine (evs : list main_event) : list event :=
  flat_map (fun e => match e with Routine e' => [e'] | _ => [] end) evs.

End WithSystem.

End WithHost.

(** *** The writable stream [mutableStdout] of the configuration
    dialogue *)

Inductive stream_event : Type :=
| StdoutWrite (chunk : string)
| Callback.

(** The line feed character. *)
Definition line_feed : string := String "010"%char EmptyString.

(** The stream's [write(chunk, encoding, callback)], with the value of
    [this.muted] ([None] before the field is assigned). *)
Definition mutableStdout_write (muted : option bool) (chunk : string)
  : list stream_event :=
  (if negb (default false muted) || includes chunk line_feed
   then [StdoutWrite chunk]
   else [])
  ++ [Callback].

(** The chunks forwarded to [process.stdout]. *)
Definition forwarded (evs : list stream_event) : list string :=
  flat_map (fun e => match e with StdoutWrite chunk => [chunk] | _ => [] end)
           evs.

Definition callbacks (evs : list stream_event) : nat :=
  length (List.filter (fun e => match e with Callback => true | _ => false end)
                      evs).

End Main.


(** ** Concrete inputs used by the examples below *)

Module DiscoveryExamples.
Import Discovery.

Definition header (messageID : value) : string * value :=
  ("Header", VArr [VObj [("MessageID", VArr [messageID])]]).

Definition body (probe : value) : string * value :=
  ("Body", VArr [VObj [("Probe", VArr [probe])]]).

Definition envelope (fields : list (string * value)) : value :=
  VObj [("Envelope", VObj fields)].

Definition onvif_ns : string := "http://www.onvif.org/ver10/network/wsdl".

(** Datagrams, and next to each the document [xml2js] builds from it
    (child elements as arrays, text-only elements as strings, attributes
    under [$], text beside attributes under [_]). *)
Definition probe_generic : string :=
  "<Envelope><Header><MessageID>uuid:probe-1</MessageID></Header><Body><Probe/></Body></Envelope>".
Definition doc_generic : value :=
  envelope [header (VStr "uuid:probe-1"); body (VStr "")].

Definition probe_nvt : string :=
  "<Envelope><Header><MessageID>uuid:probe-2</MessageID></Header><Body><Probe><Types>dn:NetworkVideoTransmitter</Types></Probe></Body></Envelope>".
Definition doc_nvt : value :=
  envelope [header (VStr "uuid:probe-2");
            body (VObj [("Types", VArr [VStr "dn:NetworkVideoTransmitter"])])].

Definition probe_nvt_attr : string :=
  "<Envelope><Header><MessageID a='1'>uuid:probe-2</MessageID></Header><Body><Probe><Types xmlns:dn='http://www.onvif.org/ver10/network/wsdl'>dn:NetworkVideoTransmitter</Types></Probe></Body></Envelope>".
Definition doc_nvt_attr : value :=
  envelope [header (VObj [("_", VStr "uuid:probe-2"); ("$", VObj [("a", VStr "1")])]);
            body (VObj [("Types",
                         VArr [VObj [("_", VStr "dn:NetworkVideoTransmitter");
                                     ("$", VObj [("xmlns:dn", VStr onvif_ns)])]])])].

Definition probe_other : string :=
  "<Envelope><Header><MessageID>uuid:probe-3</MessageID></Header><Body><Probe><Types>tns:SomeOtherDevice</Types></Probe></Body></Envelope>".
Definition doc_other : value :=
  envelope [header (VStr "uuid:probe-3");
            body (VObj [("Types", VArr [VStr "tns:SomeOtherDevice"])])].

Definition probe_no_body : string :=
  "<Envelope><Header><MessageID>uuid:probe-4</MessageID></Header></Envelope>".
Definition doc_no_body : value :=
  envelope [header (VStr "uuid:probe-4")].

Definition probe_no_header : string :=
  "<Envelope><Body><Probe/></Body></Envelope>".
Definition doc_no_header : value :=
  envelope [body (VStr "")].

Definition probe_types_attr_only : string :=
  "<Envelope><Header><MessageID>uuid:probe-5</MessageID></Header><Body><Probe><Types xmlns:dn='http://www.onvif.org/ver10/network/wsdl'/></Probe></Body></Envelope>".
Definition doc_types_attr_only : value :=
  envelope [header (VStr "uuid:probe-5");
            body (VObj [("Types",
                         VArr [VObj [("$", VObj [("xmlns:dn", VStr onvif_ns)])]])])].

Definition table : list (string * value) :=
  [(probe_generic, doc_generic); (probe_nvt, doc_nvt);
   (probe_nvt_attr, doc_nvt_attr); (probe_other, doc_other);
   (probe_no_body, doc_no_body); (probe_no_header, doc_no_header);
   (probe_types_attr_only, doc_types_attr_only)].

(** A parser that knows the datagrams above and rejects everything
    else. *)
Fixpoint lookup_doc (message : string) (t : list (string * value)) : parsed :=
  match t with
  | [] => ParseError
  | (m, doc) :: rest =>
      if String.eqb message m then ParseOk doc else lookup_doc message rest
  end.

(** Devices are represented by their discovery information; joining the
    group fails on the interface 10.0.0.6. *)
Definition demo : Platform :=
  {| Server := DiscoveryInfo;
     getDiscoveryInfo := fun info => info;
     parseString := fun message => lookup_doc message table;
     uuid_v1 := fun n => "6fa459ea-ee8a-11e0-9a00-" +:+ pretty n;
     addMembership_ok := fun _ iface => negb (String.eqb iface "10.0.0.6") |}.

Definition cam1 : DiscoveryInfo :=
  {| uuid := "15b21259-77d9-441f-9913-3ccd8a82e430";
     hostname := "10.0.0.5"; port := 8081 |}.
Definition cam2 : DiscoveryInfo :=
  {| uuid := "1d20d7b7-f802-4c7c-b9a6-e5a6c1a2d7c2";
     hostname := "10.0.0.6"; port := 8082 |}.
Definition cam3 : DiscoveryInfo :=
  {| uuid := "b6b1b3a2-06a4-4f0c-8a3e-5f5d0d3b0d11";
     hostname := "10.0.0.5"; port := 8083 |}.
(** A second device configured with the UUID of [cam1]. *)
Definition cam1_copy : DiscoveryInfo :=
  {| uuid := "15b21259-77d9-441f-9913-3ccd8a82e430";
     hostname := "10.0.0.7"; port := 8084 |}.

Definition prober : Remote :=
  {| address := "10.0.0.99"; remote_port := 51234 |}.

(** A sender whose datagrams carry the source port 0. *)
Definition portless : Remote :=
  {| address := "10.0.0.99"; remote_port := 0 |}.

Definition fresh : Runtime :=
  {| sockets_created := 0; uuids_drawn := 0; orphans := [] |}.

(** The instance right after [start()] in a fresh process. *)
Definition started (svs : list DiscoveryInfo) : @DiscoveryServer demo :=
  @Build_DiscoveryServer demo svs (Some 0) (Some 1)
    (messageCounters (constructor (H := demo) svs)).

Definition after_start : Runtime :=
  {| sockets_created := 2; uuids_drawn := 0; orphans := [] |}.

(** A probe whose [MessageID] element has an attribute and no text, and
    a platform whose parser knows it as well. *)
Definition probe_id_attr_only : string :=
  "<Envelope><Header><MessageID a='1'/></Header><Body><Probe/></Body></Envelope>".
Definition doc_id_attr_only : value :=
  envelope [header (VObj [("$", VObj [("a", VStr "1")])]); body (VStr "")].

Definition demo_more : Platform :=
  {| Server := DiscoveryInfo;
     getDiscoveryInfo := fun info => info;
     parseString := fun message =>
       lookup_doc message ((probe_id_attr_only, doc_id_attr_only) :: table);
     uuid_v1 := fun n => "6fa459ea-ee8a-11e0-9a00-" +:+ pretty n;
     addMembership_ok := fun _ iface => negb (String.eqb iface "10.0.0.6") |}.

Definition started_more (svs : list DiscoveryInfo)
  : @DiscoveryServer demo_more :=
  @Build_DiscoveryServer demo_more svs (Some 0) (Some 1)
    (messageCounters (constructor (H := demo_more) svs)).

End DiscoveryExamples.

Module MainExamples.
Import Main.

(** A host with two interfaces; a server is represented by its
    configuration. *)
Definition interfaces (mac : string) : option string :=
  if String.eqb mac "02:00:00:00:00:01" then Some "10.0.0.5"
  else if String.eqb mac "02:00:00:00:00:02" then Some "10.0.0.6"
  else None.

Definition host : Host :=
  {| Server := OnvifConfig;
     createServer := fun onvifConfig _ => onvifConfig;
     getHostname := fun s => interfaces (mac s) |}.

Definition camera_target : Target :=
  {| hostname := "192.168.1.20";
     target_ports := {| server := None; rtsp := Some 554%N; snapshot := Some 80%N |} |}.

Definition channel1 : OnvifConfig :=
  {| name := "Channel1"; mac := "02:00:00:00:00:01";
     ports := {| server := Some 8081%N; rtsp := Some 8554%N; snapshot := Some 8580%N |};
     target := camera_target |}.

Definition channel2 : OnvifConfig :=
  {| name := "Channel2"; mac := "02:00:00:00:00:02";
     ports := {| server := Some 8082%N; rtsp := Some 8555%N; snapshot := None |};
     target := camera_target |}.

(** A device whose MAC address is on no interface of the host. *)
Definition unplugged : OnvifConfig :=
  {| name := "Channel3"; mac := "02:00:00:00:00:03";
     ports := {| server := Some 8083%N; rtsp := Some 8556%N; snapshot := Some 8582%N |};
     target := camera_target |}.

Definition proxied (configs : list OnvifConfig) : Config :=
  {| useDirectUrls := None; onvif := configs |}.

(** A file system with one good configuration file, one file that is
    not valid YAML and one that cannot be read; the good file configures
    [channel1] and [unplugged]. *)
Definition good_text : string := "onvif: [Channel1, Channel3]".

Definition disk : System :=
  {| package_version := "1.0.0";
     readFileSync := fun file =>
       if String.eqb file "config.yaml" then FileContent good_text
       else if String.eqb file "broken.yaml" then FileContent "onvif: ["
       else if String.eqb file "locked.yaml" then OtherError
       else ENOENT;
     yaml_parse := fun configData =>
       if String.eqb configData good_text
       then Some (proxied [channel1; unplugged])
       else None |}.

Definition with_file (file : string) : Args :=
  {| version := false; create_config := false; debug := false;
     config := Some file |}.

End MainExamples.
(** * Proofs *)

(** ** Strings *)

Module Text.

Lemma append_nil_l (b : string) : "" +:+ b = b.
Proof. reflexivity. Qed.

Lemma append_cons (ch : ascii) (a b : string) :
  String ch a +:+ b = String ch (a +:+ b).
Proof. reflexivity. Qed.

Lemma append_assoc (a b c : string) : (a +:+ b) +:+ c = a +:+ (b +:+ c).
Proof.
  induction a as [|ch a IH]; [reflexivity |].
  rewrite !append_cons. by rewrite IH.
Qed.

Lemma append_nil_r (a : string) : a +:+ "" = a.
Proof.
  induction a as [|ch a IH]; [reflexivity |].
  rewrite append_cons. by rewrite IH.
Qed.

Lemma substring_head (needle post : string) :
  String.substring 0 (String.length needle) (needle +:+ post) = needle.
Proof.
  induction needle as [|ch needle IH]; [by destruct post |].
  rewrite append_cons. simpl. by rewrite IH.
Qed.

Lemma substring_at (pre needle post : string) :
  String.substring (String.length pre) (String.length needle)
    (pre +:+ needle +:+ post) = needle.
Proof.
  induction pre as [|ch pre IH].
  - rewrite append_nil_l. apply substring_head.
  - rewrite append_cons. exact IH.
Qed.

Lemma substring_prefix (t : string) :
  forall k, String.length (String.substring 0 k t) = k ->
            exists post, t = String.substring 0 k t +:+ post.
Proof.
  induction t as [|c t IHt]; intros [|k] Hk; simpl in *;
    try discriminate; eauto.
  injection Hk as Hk. destruct (IHt k Hk) as [post Hp].
  exists post. rewrite append_cons. by rewrite <- Hp.
Qed.

Lemma substring_occurs (s : string) :
  forall m l, String.length (String.substring m l s) = l ->
              contains (String.substring m l s) s.
Proof.
  induction s as [|ch s IH]; intros m l Hlen.
  - destruct m, l; simpl in *; try discriminate; by exists "", "".
  - destruct m as [|m].
    + destruct (substring_prefix (String ch s) l Hlen) as [post Hp].
      by exists "", post.
    + simpl in *. destruct (IH m l Hlen) as (pre & post & Heq).
      exists (String ch pre), post. rewrite append_cons. by rewrite <- Heq.
Qed.

(** [indexOf] finds the needle exactly when it occurs. *)
Lemma indexOf_contains (s needle : string) :
  needle <> "" ->
  (indexOf s needle >? -1)%Z = true <-> contains needle s.
Proof.
  intros Hne. unfold indexOf. split.
  - destruct (String.index 0 needle s) as [m|] eqn:Hidx; [intros _ | discriminate].
    apply String.index_correct1 in Hidx.
    rewrite <- Hidx at 1. apply substring_occurs. by rewrite Hidx.
  - intros (pre & post & ->).
    destruct (String.index 0 needle (pre +:+ needle +:+ post)) as [m|] eqn:Hidx.
    + apply Z.gtb_lt. lia.
    + exfalso.
      apply (String.index_correct3 0 (String.length pre)) in Hidx;
        [| done | lia].
      apply Hidx, substring_at.
Qed.

Lemma contains_refl (s : string) : contains s s.
Proof. exists "", "". by rewrite append_nil_l, append_nil_r. Qed.

Lemma contains_app_r (needle a b : string) :
  contains needle b -> contains needle (a +:+ b).
Proof.
  intros (pre & post & ->). exists (a +:+ pre), post.
  by rewrite append_assoc.
Qed.

Lemma contains_app_l (needle a b : string) :
  contains needle a -> contains needle (a +:+ b).
Proof.
  intros (pre & post & ->). exists pre, (post +:+ b).
  by rewrite !append_assoc.
Qed.

(** A needle that spans an interpolated [x]: the text before [x] ends
    with [l], the text after it starts with [r]. *)
Lemma contains_around (a l x r b : string) :
  contains (l +:+ x +:+ r) ((a +:+ l) +:+ x +:+ (r +:+ b)).
Proof.
  exists a, b. by rewrite !append_assoc.
Qed.

End Text.

(** ** The discovery responder *)

Module DiscoveryProofs.
Import Discovery.

Section WithPlatform.
Context `{Platform}.

Lemma sends_all (evs : list event) :
  Forall (fun e => is_send e = true) evs -> sends evs = evs.
Proof.
  unfold sends. induction 1 as [|e evs He _ IH]; simpl; [done |].
  by rewrite He, IH.
Qed.

Lemma sends_app (evs1 evs2 : list event) :
  sends (evs1 ++ evs2) = sends evs1 ++ sends evs2.
Proof. apply List.filter_app. Qed.

Lemma bump_add1 (j : nat) (x : option number) :
  bump j (Some (add1 x)) = Some (add1 (bump j x)).
Proof.
  unfold bump. induction j as [|j IH]; simpl; [done | by rewrite IH].
Qed.

Lemma bump_num (j : nat) (n : N) :
  bump j (Some (Num n)) = Some (Num (n + N.of_nat j)).
Proof.
  unfold bump. induction j as [|j IH]; simpl.
  - f_equal. f_equal. lia.
  - rewrite IH. simpl. f_equal. f_equal. lia.
Qed.

Lemma bump_step (u u0 : string) (m : gmap string number) (tl : list string) :
  bump (length (List.filter (String.eqb u) tl))
       (<[u0 := add1 (m !! u0)]> m !! u)
  = bump (length (List.filter (String.eqb u) (u0 :: tl))) (m !! u).
Proof.
  simpl. destruct (String.eqb_spec u u0) as [->|Hne].
  - rewrite lookup_insert_eq, bump_add1. reflexivity.
  - by rewrite lookup_insert_ne.
Qed.

(** [send] either goes through, whatever the payload, or throws the
    same exception whatever the payload. *)
Lemma send_error_none (rsock : option handle) (remote : Remote) :
  send_error rsock remote = None ->
  exists h, rsock = Some h /\ valid_port (remote_port remote) = true
            /\ forall payload,
                 send rsock payload remote
                 = Normal (Send h payload (remote_port remote)
                                (address remote)).
Proof.
  unfold send_error, send. destruct rsock as [h|]; [| done].
  destruct (valid_port _); [| done]. intros _. by exists h.
Qed.

Lemma send_error_some (rsock : option handle) (remote : Remote)
    (e : error) (payload : string) :
  send_error rsock remote = Some e -> send rsock payload remote = Throw e.
Proof.
  unfold send_error, send. intros He.
  destruct rsock as [h|]; [destruct (valid_port _) |]; by simplify_eq.
Qed.

(** The loop over the devices when [send] goes through, in closed form:
    it does not throw, sends one datagram per device in order, and
    leaves every counter advanced by the number of devices that carry
    its UUID. *)
Lemma respond_each_spec (svs : list Server) :
  forall probeUuid remote h (m : gmap string number) d,
  valid_port (remote_port remote) = true ->
  exists m' evs,
    respond_each svs probeUuid remote (Some h) m d
    = (Normal tt, m', (d + length svs)%nat, evs)
    /\ length evs = length svs
    /\ Forall (fun e => is_send e = true) evs
    /\ (forall u, m' !! u
                  = bump (length (List.filter (String.eqb u) (uuids svs)))
                         (m !! u))
    /\ (forall k server, svs !! k = Some server ->
          evs !! k
          = Some (Send h
                    (probe_match probeUuid d k
                       (bump (earlier_same svs k
                                (uuid (getDiscoveryInfo server)))
                             (m !! uuid (getDiscoveryInfo server)))
                       server)
                    (remote_port remote) (address remote))).
Proof.
  induction svs as [|s rest IH]; intros probeUuid remote h m d Hport.
  - exists m, []. simpl. rewrite Nat.add_0_r. repeat split; try done.
  - simpl. rewrite Hport.
    destruct (IH probeUuid remote h
                (<[uuid (getDiscoveryInfo s)
                   := add1 (m !! uuid (getDiscoveryInfo s))]> m) (S d) Hport)
      as (m' & evs & Heq & Hlen & Hall & Hm & Hk).
    rewrite Heq. eexists m', (_ :: evs). split; [| split; [| split; [| split]]].
    + by rewrite Nat.add_succ_r.
    + simpl. by rewrite Hlen.
    + by constructor.
    + intros u. rewrite Hm. apply bump_step.
    + intros [|k] server Hlook; simpl in *.
      * injection Hlook as <-. unfold probe_match, earlier_same.
        simpl. by rewrite Nat.add_0_r.
      * rewrite (Hk k server Hlook). unfold probe_match, earlier_same.
        simpl take. rewrite Nat.add_succ_r.
        change (uuids (s :: take k rest))
          with (uuid (getDiscoveryInfo s) :: uuids (take k rest)).
        by rewrite bump_step.
Qed.

(** The loop when [send] throws: the first device's ProbeMatch has been
    composed and its counter stored, nothing has been sent, and the
    other devices are not reached. *)
Lemma respond_each_throws (s : Server) (rest : list Server)
    (probeUuid : value) (remote : Remote) (rsock : option handle)
    (m : gmap string number) (d : nat) (e : error) :
  send_error rsock remote = Some e ->
  respond_each (s :: rest) probeUuid remote rsock m d
  = (Throw e,
     <[uuid (getDiscoveryInfo s) := add1 (m !! uuid (getDiscoveryInfo s))]> m,
     S d, []).
Proof. intros He. simpl. by rewrite (send_error_some _ _ e _ He). Qed.
(** *** Counters of the registered devices *)

Lemma count_absent (u : string) (l : list string) :
  u ∉ l -> length (List.filter (String.eqb u) l) = 0%nat.
Proof.
  induction l as [|x l IH]; intros Hnot; simpl; [done |].
  apply not_elem_of_cons in Hnot as [Hne Hnot].
  destruct (String.eqb_spec u x); [done | by apply IH].
Qed.

Lemma count_unique (u : string) (l : list string) :
  NoDup l -> u ∈ l -> length (List.filter (String.eqb u) l) = 1%nat.
Proof.
  induction 1 as [|x l Hx Hnd IH]; intros Hin; [by apply elem_of_nil in Hin |].
  simpl. destruct (String.eqb_spec u x) as [->|Hne].
  - simpl. by rewrite count_absent.
  - apply elem_of_cons in Hin as [?|Hin]; [done | by apply IH].
Qed.

Lemma uuids_lookup (svs : list Server) (k : nat) (s : Server) :
  svs !! k = Some s -> uuids svs !! k = Some (uuid (getDiscoveryInfo s)).
Proof. intros Hk. unfold uuids. by rewrite list_lookup_fmap, Hk. Qed.

Lemma uuids_elem (svs : list Server) (s : Server) :
  s ∈ svs -> uuid (getDiscoveryInfo s) ∈ uuids svs.
Proof.
  intros Hin. unfold uuids.
  apply (list_elem_of_fmap_2 (fun x => uuid (getDiscoveryInfo x))), Hin.
Qed.


Lemma foldl_counters (svs : list Server) :
  forall (m : gmap string number) u,
    foldl (fun m server => <[uuid (getDiscoveryInfo server) := Num 0]> m)
          m svs !! u
    = if decide (u ∈ uuids svs) then Some (Num 0) else m !! u.
Proof.
  induction svs as [|s rest IH]; intros m u.
  - simpl foldl. destruct (decide (u ∈ uuids [])) as [Hin|]; [| done].
    by apply elem_of_nil in Hin.
  - simpl foldl. rewrite IH.
    change (uuids (s :: rest))
      with (uuid (getDiscoveryInfo s) :: uuids rest).
    destruct (decide (u ∈ uuids rest)) as [Hin|Hnot].
    + rewrite decide_True; [done |]. by apply elem_of_cons; right.
    + destruct (decide (u = uuid (getDiscoveryInfo s))) as [->|Hne].
      * rewrite lookup_insert_eq, decide_True; [done |].
        by apply elem_of_cons; left.
      * rewrite lookup_insert_ne, decide_False; [done | | done].
        by intros [?|?]%elem_of_cons.
Qed.

(** Registration: every device's counter starts at 0, and the map holds
    nothing else. *)
Lemma constructor_counters (svs : list Server) (u : string) :
  messageCounters (constructor svs) !! u
  = if decide (u ∈ uuids svs) then Some (Num 0) else None.
Proof.
  unfold constructor. simpl. rewrite foldl_counters.
  case_decide; [done | apply lookup_empty].
Qed.

Lemma invariant_constructor (svs : list Server) :
  invariant svs (constructor svs).
Proof.
  split; [done |]. split; [| done].
  intros u. rewrite constructor_counters.
  split; intros Hu; case_decide; try done. by exists 0%N.
Qed.

(** *** The parser callback *)

(** A datagram that does not pass as a probe changes nothing and sends
    nothing. *)
Lemma on_parsed_quiet (this : DiscoveryServer) (rt : Runtime)
    (p : parsed) (remote : Remote) :
  accepted p = None ->
  exists c evs, on_parsed this rt p remote = (c, this, rt, evs)
                /\ sends evs = [].
Proof.
  unfold accepted, on_parsed.
  destruct p as [|result]; [intros _; by eexists _, _ |].
  destruct (extract result) as [[pu pt]|e]; simpl;
    [| intros _; by eexists _, _].
  destruct (accepts pt) as [[|]|e]; simpl; intros Hq; [done | |];
    by eexists _, _.
Qed.

(** An accepted probe whose datagrams can be sent: one datagram per
    registered device, in order, on the send socket, and every counter
    advanced once per device that carries its UUID. *)
Lemma on_parsed_answered (this : DiscoveryServer) (rt : Runtime)
    (p : parsed) (remote : Remote) (probeUuid : value) (r : handle) :
  accepted p = Some probeUuid ->
  responseSocket this = Some r ->
  valid_port (remote_port remote) = true ->
  exists m' evs,
    on_parsed this rt p remote
    = (Normal tt,
       {| servers := servers this;
          socket := socket this;
          responseSocket := responseSocket this;
          messageCounters := m' |},
       {| sockets_created := sockets_created rt;
          uuids_drawn := (uuids_drawn rt + length (servers this))%nat;
          orphans := orphans rt |},
       probe_received remote :: evs)
    /\ length evs = length (servers this)
    /\ sends (probe_received remote :: evs) = evs
    /\ (forall u, m' !! u
                  = bump (length (List.filter (String.eqb u)
                                    (uuids (servers this))))
                         (messageCounters this !! u))
    /\ (forall k server, servers this !! k = Some server ->
          evs !! k
          = Some (Send r
                    (probe_match probeUuid (uuids_drawn rt) k
                       (bump (earlier_same (servers this) k
                                (uuid (getDiscoveryInfo server)))
                             (messageCounters this
                                !! uuid (getDiscoveryInfo server)))
                       server)
                    (remote_port remote) (address remote))).
Proof.
  unfold accepted, on_parsed. destruct p as [|result]; [done |].
  destruct (extract result) as [[pu pt]|e]; simpl; [| done].
  destruct (accepts pt) as [[|]|e]; simpl; try done.
  intros [= ->] Hr Hport. rewrite Hr.
  destruct (respond_each_spec (servers this) probeUuid remote r
              (messageCounters this) (uuids_drawn rt) Hport)
    as (m' & evs & Heq & Hlen & Hall & Hm & Hk).
  rewrite Heq. exists m', evs. repeat split; try done.
  unfold probe_received. change (sends (?e :: evs)) with (sends evs).
  by apply sends_all.
Qed.

(** An accepted probe whose first datagram cannot be sent: the probe is
    logged, the first device's ProbeMatch is composed, its counter is
    stored, and [send] throws out of the loop and of the handler. *)
Lemma on_parsed_throws (this : DiscoveryServer) (rt : Runtime)
    (p : parsed) (remote : Remote) (probeUuid : value) (e : error)
    (s : Server) (rest : list Server) :
  accepted p = Some probeUuid ->
  send_error (responseSocket this) remote = Some e ->
  servers this = s :: rest ->
  on_parsed this rt p remote
  = (Throw e,
     {| servers := servers this;
        socket := socket this;
        responseSocket := responseSocket this;
        messageCounters :=
          <[uuid (getDiscoveryInfo s)
            := add1 (messageCounters this !! uuid (getDiscoveryInfo s))]>
            (messageCounters this) |},
     {| sockets_created := sockets_created rt;
        uuids_drawn := S (uuids_drawn rt);
        orphans := orphans rt |},
     [probe_received remote]).
Proof.
  unfold accepted, on_parsed. destruct p as [|result]; [done |].
  destruct (extract result) as [[pu pt]|e']; simpl; [| done].
  destruct (accepts pt) as [[|]|e']; simpl; try done.
  intros [= ->] He Hsvs. rewrite Hsvs at 1.
  by rewrite (respond_each_throws _ _ _ _ _ _ _ e He).
Qed.

(** An accepted probe with no device registered: the probe is logged and
    the loop has nothing to do. *)
Lemma on_parsed_no_devices (this : DiscoveryServer) (rt : Runtime)
    (p : parsed) (remote : Remote) (probeUuid : value) :
  accepted p = Some probeUuid ->
  servers this = [] ->
  on_parsed this rt p remote
  = (Normal tt,
     {| servers := servers this;
        socket := socket this;
        responseSocket := responseSocket this;
        messageCounters := messageCounters this |},
     {| sockets_created := sockets_created rt;
        uuids_drawn := uuids_drawn rt;
        orphans := orphans rt |},
     [probe_received remote]).
Proof.
  unfold accepted, on_parsed. destruct p as [|result]; [done |].
  destruct (extract result) as [[pu pt]|e']; simpl; [| done].
  destruct (accepts pt) as [[|]|e']; simpl; try done.
  intros [= ->] Hsvs. by rewrite Hsvs at 1.
Qed.

Lemma instance_eq (a b : DiscoveryServer) :
  servers a = servers b -> socket a = socket b ->
  responseSocket a = responseSocket b ->
  messageCounters a = messageCounters b -> a = b.
Proof. destruct a, b; simpl; congruence. Qed.

Lemma runtime_eq (a b : Runtime) :
  sockets_created a = sockets_created b -> uuids_drawn a = uuids_drawn b ->
  orphans a = orphans b -> a = b.
Proof. destruct a, b; simpl; congruence. Qed.

(** *** What one call does to the counters, the generator and the wire *)

Lemma bump_plus (a b : nat) (x : option number) :
  bump (a + b) x = bump b (bump a x).
Proof. unfold bump. by rewrite Nat.add_comm, Nat.iter_add. Qed.

Lemma first_uuid_cons (s : Server) (rest : list Server) :
  first_uuid (s :: rest) = Some (uuid (getDiscoveryInfo s)).
Proof. reflexivity. Qed.

(** Storing the advanced counter of the first device, seen from any
    key. *)
Lemma bump_first (s : Server) (rest : list Server)
    (m : gmap string number) (u : string) :
  <[uuid (getDiscoveryInfo s) := add1 (m !! uuid (getDiscoveryInfo s))]> m
    !! u
  = bump (if decide (first_uuid (s :: rest) = Some u) then 1 else 0) (m !! u).
Proof.
  rewrite first_uuid_cons.
  destruct (decide (Some (uuid (getDiscoveryInfo s)) = Some u)) as [[= ->]|Hne].
  - by rewrite lookup_insert_eq.
  - rewrite lookup_insert_ne; [done | congruence].
Qed.

Lemma sends_join (sock : option handle) (hs : list string) :
  sends (flat_map (join sock) hs) = [].
Proof.
  induction hs as [|h hs IH]; simpl; [done |].
  rewrite sends_app, IH.
  destruct sock as [s|]; simpl; [| done].
  by destruct (addMembership_ok _ h).
Qed.

(** One call, whatever the state: [n] probes are answered in full and
    [f] probes get as far as a first [send] that throws, with [n + f] at
    most 1.  A probe answered in full puts one datagram per device on
    the wire, draws one UUID per device and advances every counter once
    per device that carries its UUID; a [send] that throws has drawn one
    UUID and advanced the first device's counter, and nothing is on the
    wire. *)
Lemma step_account (this this' : DiscoveryServer) (rt rt' : Runtime)
    (c : call) (evs : list event) :
  step (this, rt) c = (this', rt', evs) ->
  servers this' = servers this
  /\ exists n f : nat,
       (n + f <= 1)%nat
       /\ (f = 1%nat -> servers this <> [] /\ sends evs = [])
       /\ length (sends evs) = (n * length (servers this))%nat
       /\ uuids_drawn rt'
          = (uuids_drawn rt + n * length (servers this) + f)%nat
       /\ forall u,
            messageCounters this' !! u
            = bump (n * multiplicity (servers this) u
                    + (if decide (first_uuid (servers this) = Some u)
                       then f else 0))
                   (messageCounters this !! u).
Proof.
  assert (Hquiet : forall evs0 : list event, sends evs0 = [] ->
            servers this = servers this
            /\ exists n f : nat,
                 (n + f <= 1)%nat
                 /\ (f = 1%nat -> servers this <> [] /\ sends evs0 = [])
                 /\ length (sends evs0) = (n * length (servers this))%nat
                 /\ uuids_drawn rt
                    = (uuids_drawn rt + n * length (servers this) + f)%nat
                 /\ forall u,
                      messageCounters this !! u
                      = bump (n * multiplicity (servers this) u
                              + (if decide (first_uuid (servers this) = Some u)
                                 then f else 0))
                             (messageCounters this !! u)).
  { intros evs0 Hs. split; [done |]. exists 0%nat, 0%nat. rewrite Hs.
    split; [lia |]. split; [done |]. split; [done |]. split; [lia |].
    intros u. by case_decide. }
  intros Hstep. destruct c as [| |message remote| |]; simpl in Hstep.
  - injection Hstep as <- <- <-. by apply (Hquiet [_; _; _]).
  - destruct (listening this rt); injection Hstep as <- <- <-;
      [| by apply Hquiet].
    apply Hquiet. unfold on_listening.
    change (sends (?e :: ?l)) with (sends l). apply sends_join.
  - destruct (listening this rt);
      [| injection Hstep as <- <- <-; by apply Hquiet].
    unfold on_message in Hstep.
    destruct (accepted (parseString message)) as [pu|] eqn:Hans.
    + destruct (servers this) as [|s rest] eqn:Hsvs.
      { rewrite (on_parsed_no_devices this rt _ remote pu Hans Hsvs)
          in Hstep.
        injection Hstep as <- <- <-. simpl. rewrite Hsvs.
        split; [done |]. exists 0%nat, 0%nat.
        split; [lia |]. split; [done |]. split; [done |]. split; [lia |].
        intros u. try case_decide; done. }
      destruct (send_error (responseSocket this) remote) as [e|] eqn:Herr.
      * rewrite (on_parsed_throws this rt _ remote pu e s rest Hans Herr Hsvs)
          in Hstep.
        injection Hstep as <- <- <-. simpl. rewrite Hsvs.
        split; [done |]. exists 0%nat, 1%nat.
        split; [lia |]. split; [done |]. split; [done |]. split; [lia |].
        intros u. apply bump_first.
      * destruct (send_error_none _ _ Herr) as (r & Hr & Hport & _).
        destruct (on_parsed_answered this rt _ remote pu r Hans Hr Hport)
          as (m' & sent & Heq & Hlen & Hsends & Hm & _).
        rewrite Heq in Hstep. injection Hstep as <- <- <-.
        rewrite app_nil_r, Hsends, Hlen.
        cbn [servers messageCounters uuids_drawn]. rewrite Hsvs.
        split; [done |]. exists 1%nat, 0%nat.
        split; [lia |]. split; [done |]. split; [lia |]. split; [lia |].
        intros u. rewrite Hm, Hsvs. unfold multiplicity. f_equal.
        case_decide; lia.
    + destruct (on_parsed_quiet this rt _ remote Hans)
        as (c & evs' & Heq & Hsends).
      rewrite Heq in Hstep. injection Hstep as <- <- <-.
      apply Hquiet. rewrite sends_app, Hsends. by destruct c.
  - destruct (listening this rt); injection Hstep as <- <- <-;
      by apply Hquiet.
  - unfold stop in Hstep.
    destruct (socket this), (responseSocket this);
      injection Hstep as <- <- <-; by apply (Hquiet [_; _]) ||
                                      by apply (Hquiet [_]) ||
                                      by apply (Hquiet []).
Qed.

(** *** The invariant of the instance *)

Lemma registered_bump (svs : list Server) (m m' : gmap string number)
    (j : string -> nat) :
  registered svs m ->
  (forall u, u ∉ uuids svs -> j u = 0%nat) ->
  (forall u, m' !! u = bump (j u) (m !! u)) ->
  registered svs m'.
Proof.
  intros Hreg Hj Hm u. rewrite Hm. destruct (Hreg u) as [Hin Hout]. split.
  - intros Hu. destruct (Hin Hu) as [n ->]. rewrite bump_num. eauto.
  - intros Hu. rewrite (Hj u Hu). by apply Hout.
Qed.

Lemma first_uuid_elem (svs : list Server) (u : string) :
  first_uuid svs = Some u -> u ∈ uuids svs.
Proof.
  unfold first_uuid. destruct (uuids svs) as [|x l]; [done |].
  intros [= ->]. apply list_elem_of_here.
Qed.

Lemma sockets_ok_response (this : DiscoveryServer) (s : handle) :
  sockets_ok this -> socket this = Some s ->
  exists r, responseSocket this = Some r /\ r <> s.
Proof.
  unfold sockets_ok. intros Hok Hs. rewrite Hs in Hok.
  destruct (responseSocket this) as [r|]; [| done]. eauto.
Qed.

Lemma step_sockets_ok (this this' : DiscoveryServer) (rt rt' : Runtime)
    (c : call) (evs : list event) :
  sockets_ok this -> step (this, rt) c = (this', rt', evs) ->
  sockets_ok this'.
Proof.
  intros Hok Hstep. destruct c as [| |message remote| |]; simpl in Hstep.
  - injection Hstep as <- <- <-. unfold sockets_ok. simpl. lia.
  - by destruct (listening this rt); injection Hstep as <- <- <-.
  - destruct (listening this rt); [| by injection Hstep as <- <- <-].
    unfold on_message, on_parsed in Hstep.
    destruct (parseString message) as [|result];
      [by injection Hstep as <- <- <- |].
    destruct (_ <- extract result;; _) as [[pu [|]]|e];
      try by injection Hstep as <- <- <-.
    destruct (respond_each _ _ _ _ _ _) as [[[c m] d] evs1].
    by injection Hstep as <- <- <-.
  - by destruct (listening this rt); injection Hstep as <- <- <-.
  - unfold stop in Hstep. unfold sockets_ok in Hok.
    destruct (socket this), (responseSocket this); try done;
      by injection Hstep as <- <- <-.
Qed.

Lemma step_invariant (svs : list Server) (this this' : DiscoveryServer)
    (rt rt' : Runtime) (c : call) (evs : list event) :
  invariant svs this -> step (this, rt) c = (this', rt', evs) ->
  invariant svs this'.
Proof.
  intros (Hsvs & Hreg & Hok) Hstep.
  destruct (step_account _ _ _ _ _ _ Hstep)
    as (Hsame & n & f & _ & _ & _ & _ & Hm).
  split; [congruence |]. split; [| by eapply step_sockets_ok].
  rewrite Hsvs in Hm.
  apply (registered_bump svs (messageCounters this) _ _ Hreg) in Hm;
    [done |].
  intros u Hu. unfold multiplicity. rewrite (count_absent _ _ Hu).
  rewrite decide_False; [lia |]. intros Hfirst.
  by apply Hu, first_uuid_elem.
Qed.

Lemma run_cons (st : DiscoveryServer * Runtime) (c : call)
    (rest : list call) :
  run st (c :: rest)
  = let '(this1, rt1, evs1) := step st c in
    let '(st2, evs2) := run (this1, rt1) rest in
    (st2, evs1 ++ evs2).
Proof. reflexivity. Qed.

Lemma run_invariant (svs : list Server) (calls : list call) :
  forall this rt this' rt' evs,
    invariant svs this -> run (this, rt) calls = (this', rt', evs) ->
    invariant svs this'.
Proof.
  induction calls as [|c rest IH]; intros this rt this' rt' evs Hinv Hrun.
  - simpl in Hrun. by injection Hrun as <- <- <-.
  - rewrite run_cons in Hrun.
    destruct (step (this, rt) c) as [[this1 rt1] evs1] eqn:Hstep.
    destruct (run (this1, rt1) rest) as [[this2 rt2] evs2] eqn:Hrest.
    injection Hrun as <- <- <-.
    eapply IH; [| exact Hrest]. eapply step_invariant; eauto.
Qed.

Lemma reachable_invariant (svs : list Server) (this : DiscoveryServer)
    (rt : Runtime) :
  reachable svs this rt -> invariant svs this.
Proof.
  intros (rt0 & calls & evs & _ & Hrun).
  eapply run_invariant; [apply invariant_constructor | exact Hrun].
Qed.
(** *** The payload of a ProbeMatch *)

(** The part of the literal [s] before its suffix [l], and the part
    after its prefix [r]. *)
Ltac before_suffix s l :=
  let n := eval vm_compute in (String.length s - String.length l)%nat in
  eval vm_compute in (String.substring 0 n s).

Ltac after_prefix s r :=
  let n := eval vm_compute in (String.length r) in
  let k := eval vm_compute in (String.length s - String.length r)%nat in
  eval vm_compute in (String.substring n k s).

Ltac around_needle s needle :=
  let n := eval vm_compute in
             (match String.index 0 needle s with Some n => n | None => 0%nat end) in
  let a := eval vm_compute in (String.substring 0 n s) in
  let k := eval vm_compute in (n + String.length needle)%nat in
  let j := eval vm_compute in (String.length s - k)%nat in
  let b := eval vm_compute in (String.substring k j s) in
  constr:((a, b)).

Ltac occurs_between pre post :=
  exists pre, post; rewrite ?Text.append_assoc; vm_compute; reflexivity.

Lemma response_carries (messageID relatesTo messageNo : string)
    (info : DiscoveryInfo) :
  carries (response messageID relatesTo messageNo
             (uuid info) (hostname info) (pretty (port info)))
          relatesTo messageNo info.
Proof.
  unfold carries, response.
  generalize (uuid info) (hostname info) (pretty (port info)).
  intros u h p.
  repeat split;
    match goal with
    | |- contains _ (?s0 +:+ _ +:+ ?s1 +:+ _ +:+ ?s2 +:+ _ +:+ ?s3 +:+ _
                     +:+ ?s4 +:+ _ +:+ ?s5 +:+ _ +:+ ?s6) =>
        set (S0 := s0); set (S1 := s1); set (S2 := s2); set (S3 := s3);
        set (S4 := s4); set (S5 := s5); set (S6 := s6)
    end.
  - let a := before_suffix S1 "<wsa:RelatesTo>" in
    let b := after_prefix S2 "</wsa:RelatesTo>" in
    occurs_between (S0 +:+ messageID +:+ a)
                   (b +:+ messageNo +:+ S3 +:+ u +:+ S4 +:+ h +:+ S5
                    +:+ p +:+ S6).
  - let l := constr:(q "<d:AppSequence SOAP-ENV:mustUnderstand='true' MessageNumber='") in
    let r := constr:(q "' InstanceId='1234567890'/>") in
    let a := before_suffix S2 l in
    let b := after_prefix S3 r in
    occurs_between (S0 +:+ messageID +:+ S1 +:+ relatesTo +:+ a)
                   (b +:+ u +:+ S4 +:+ h +:+ S5 +:+ p +:+ S6).
  - let a := before_suffix S3 "<wsa:Address>urn:uuid:" in
    let b := after_prefix S4 "</wsa:Address>" in
    occurs_between (S0 +:+ messageID +:+ S1 +:+ relatesTo +:+ S2
                    +:+ messageNo +:+ a)
                   (b +:+ h +:+ S5 +:+ p +:+ S6).
  - let ab := around_needle S4 "<d:Types>dn:NetworkVideoTransmitter</d:Types>" in
    match ab with
    | (?a, ?b) =>
        occurs_between (S0 +:+ messageID +:+ S1 +:+ relatesTo +:+ S2
                        +:+ messageNo +:+ S3 +:+ u +:+ a)
                       (b +:+ h +:+ S5 +:+ p +:+ S6)
    end.
  - let a := before_suffix S4 "<d:XAddrs>http://" in
    let b := after_prefix S6 "/onvif/device_service</d:XAddrs>" in
    occurs_between (S0 +:+ messageID +:+ S1 +:+ relatesTo +:+ S2
                    +:+ messageNo +:+ S3 +:+ u +:+ a)
                   b.
  - let ab := around_needle S6 "<d:MetadataVersion>1</d:MetadataVersion>" in
    match ab with
    | (?a, ?b) =>
        occurs_between (S0 +:+ messageID +:+ S1 +:+ relatesTo +:+ S2
                        +:+ messageNo +:+ S3 +:+ u +:+ S4 +:+ h +:+ S5
                        +:+ p +:+ a)
                       b
    end.
Qed.

(** *** Sequence counters along the life of the instance *)

(** Any sequence of calls: [n] probes answered in full and [f] probes
    whose first [send] threw. *)
Lemma run_account (calls : list call) :
  forall this rt this' rt' evs,
    run (this, rt) calls = (this', rt', evs) ->
    servers this' = servers this
    /\ exists n f : nat,
         length (sends evs) = (n * length (servers this))%nat
         /\ uuids_drawn rt'
            = (uuids_drawn rt + n * length (servers this) + f)%nat
         /\ forall u,
              messageCounters this' !! u
              = bump (n * multiplicity (servers this) u
                      + (if decide (first_uuid (servers this) = Some u)
                         then f else 0))
                     (messageCounters this !! u).
Proof.
  induction calls as [|c rest IH]; intros this rt this' rt' evs Hrun.
  - injection Hrun as <- <- <-. split; [done |]. exists 0%nat, 0%nat.
    split; [done |]. split; [lia |]. intros u. by case_decide.
  - rewrite run_cons in Hrun.
    destruct (step (this, rt) c) as [[this1 rt1] evs1] eqn:Hstep.
    destruct (run (this1, rt1) rest) as [[this2 rt2] evs2] eqn:Hrest.
    injection Hrun as <- <- <-.
    destruct (step_account _ _ _ _ _ _ Hstep)
      as (Hsvs1 & n1 & f1 & _ & _ & Hlen1 & Hd1 & Hm1).
    destruct (IH _ _ _ _ _ Hrest) as (Hsvs2 & n2 & f2 & Hlen2 & Hd2 & Hm2).
    rewrite Hsvs1 in *. split; [done |].
    exists (n1 + n2)%nat, (f1 + f2)%nat.
    rewrite sends_app, length_app, Hlen1, Hlen2, Hd2, Hd1.
    split; [lia |]. split; [lia |].
    intros u. rewrite Hm2, Hm1, <- bump_plus. f_equal.
    case_decide; lia.
Qed.

Lemma first_uuid_index (svs : list Server) (i : nat) (s : Server) :
  NoDup (uuids svs) -> svs !! i = Some s ->
  first_uuid svs = Some (uuid (getDiscoveryInfo s)) <-> i = 0%nat.
Proof.
  intros Hnd Hi. unfold first_uuid. rewrite head_lookup.
  pose proof (uuids_lookup _ _ _ Hi) as Hu. split.
  - intros H0. by apply (NoDup_lookup _ _ _ _ Hnd Hu H0).
  - by intros ->.
Qed.

(** *** Extraction and the type filter *)


(** A value in either of the two representations [xml2js] uses for an
    element with text: the text itself, or an object holding it under
    [_]. *)
Lemma text_of_plain (t : string) : text_of (VStr t) = Normal (VStr t).
Proof. reflexivity. Qed.

Lemma text_of_object (fields : list (string * value)) (t : string) :
  assoc "_" fields = VStr t -> text_of (VObj fields) = text_of (VStr t).
Proof. intros Ht. unfold text_of. simpl. by rewrite Ht. Qed.

Lemma text_of_not_null (u : value) :
  u <> VNull -> exists v, text_of u = Normal v.
Proof. intros Hu. destruct u; try done; by eexists. Qed.

(** When the chain of reads to the type filter throws, the filter is
    the empty string. *)
Lemma extract_types_unreadable (result u : value) (e : error) :
  path result messageID_path = Normal u -> u <> VNull ->
  path result types_path = Throw e ->
  exists probeUuid, text_of u = Normal probeUuid
                    /\ extract result = Normal (probeUuid, VStr "").
Proof.
  intros Hid Hu Htypes. destruct (text_of_not_null u Hu) as [v Hv].
  exists v. split; [done |]. unfold extract.
  rewrite Hid, Htypes. simpl. by rewrite Hv.
Qed.

Lemma text_of_represents (v : value) (s : string) :
  represents v s -> text_of v = Normal (VStr s).
Proof.
  intros [->|(fields & -> & Hs)]; [done |].
  unfold text_of. simpl. by rewrite Hs.
Qed.


(** C2: for registered devices with pairwise distinct UUIDs (a UUID
    identifies a device), every device's counter is 0 at registration.
    A call on the instance composes ProbeMatches for the first [k]
    registered devices, for some [k]: composing one evaluates [uuid.v1]
    once, so the call draws [k] UUIDs; it advances the counter of each
    of these [k] devices by exactly 1 and leaves every other counter as
    it was, and no key outside the registered UUIDs enters the map.  If
    the call puts datagrams on the wire then [k] is the number of
    devices and there is one datagram per device; a call that composes
    nothing advances nothing.  No call, [stop()] and [start()] included,
    resets a counter: after any sequence of calls with [n] probes
    answered in full and [f] probes whose first datagram could not be
    sent, the counter of the first device is [n + f] and that of every
    other device is [n], the number of ProbeMatches composed for it. *)
Theorem sequence_counters (svs : list Server) :
  NoDup (uuids svs) ->
  (forall server, server ∈ svs ->
     counter (constructor svs) server = Some (Num 0))
  /\ (forall this rt c this' rt' evs,
        reachable svs this rt -> step (this, rt) c = (this', rt', evs) ->
        exists k : nat,
          (k <= length svs)%nat
          /\ uuids_drawn rt' = (uuids_drawn rt + k)%nat
          /\ (forall i server, svs !! i = Some server ->
                exists n, counter this server = Some (Num n)
                          /\ counter this' server
                             = Some (Num (if decide (i < k)%nat
                                          then n + 1 else n)))
          /\ (forall u, u ∉ uuids svs -> messageCounters this' !! u = None)
          /\ (sends evs = []
              \/ (k = length svs /\ length (sends evs) = length svs)))
  /\ (forall rt0 calls this rt evs,
        run (constructor svs, rt0) calls = (this, rt, evs) ->
        exists n f : nat,
          length (sends evs) = (n * length svs)%nat
          /\ uuids_drawn rt = (uuids_drawn rt0 + n * length svs + f)%nat
          /\ forall i server, svs !! i = Some server ->
               counter this server
               = Some (Num (N.of_nat
                              (n + if decide (i = 0%nat) then f else 0)))).
Proof.
  intros Hnd.
  assert (Hcount : forall i server n f, svs !! i = Some server ->
            (n * multiplicity svs (uuid (getDiscoveryInfo server))
             + (if decide (first_uuid svs
                           = Some (uuid (getDiscoveryInfo server)))
                then f else 0))%nat
            = (n + if decide (i = 0%nat) then f else 0)%nat).
  { intros i server n f Hi. unfold multiplicity.
    rewrite (count_unique _ _ Hnd);
      [| apply uuids_elem, list_elem_of_lookup; eauto].
    pose proof (first_uuid_index svs i server Hnd Hi) as Hiff.
    repeat case_decide; try lia; tauto. }
  split; [| split].
  - intros server Hin. unfold counter. rewrite constructor_counters.
    rewrite decide_True; [done |]. by apply uuids_elem.
  - intros this rt c this' rt' evs Hreach Hstep.
    pose proof (reachable_invariant _ _ _ Hreach) as Hinv.
    pose proof (step_invariant _ _ _ _ _ _ _ Hinv Hstep) as (_ & Hreg' & _).
    destruct Hinv as (Hsvs & Hreg & _).
    destruct (step_account _ _ _ _ _ _ Hstep)
      as (_ & n & f & Hnf & Hf & Hlen & Hd & Hm).
    rewrite Hsvs in *.
    exists (n * length svs + f)%nat.
    split; [| split; [lia |]; split; [| split]].
    + destruct f as [|[|f]]; [nia | | lia].
      destruct (Hf eq_refl) as [Hne _]. destruct svs; [done |].
      simpl. nia.
    + intros i server Hi.
      destruct (Hreg (uuid (getDiscoveryInfo server))) as [Hsome _].
      destruct Hsome as [n0 Hn0];
        [apply uuids_elem, list_elem_of_lookup; eauto |].
      exists n0. unfold counter. rewrite Hm, Hn0. split; [done |].
      rewrite (Hcount i server n f Hi), bump_num.
      pose proof (lookup_lt_Some _ _ _ Hi) as Hlt.
      do 2 f_equal. repeat case_decide; nia.
    + intros u Hu. by apply Hreg'.
    + destruct n as [|n].
      * left. by apply nil_length_inv.
      * right. split; nia.
  - intros rt0 calls this rt evs Hrun.
    destruct (run_account calls _ _ _ _ _ Hrun)
      as (_ & n & f & Hlen & Hd & Hm).
    simpl servers in *. exists n, f. split; [done |]. split; [done |].
    intros i server Hi. unfold counter.
    rewrite Hm, (Hcount i server n f Hi), constructor_counters.
    rewrite (decide_True (P := _ ∈ _));
      [| apply uuids_elem, list_elem_of_lookup; eauto].
    by rewrite bump_num.
Qed.


(** C5 (as amended): for a datagram that fails to parse, the failure is
    logged at trace level and the handler returns normally with nothing
    sent and nothing changed.  A parsed datagram whose message ID can be
    read but whose type filter cannot is not dropped: when it comes from
    a source port that [send] takes (1 to 65535), the handler returns
    normally after sending one datagram per registered device, as for a
    probe with an empty filter. *)
Theorem unparsed_dropped_untyped_answered (svs : list Server)
    (this : DiscoveryServer) (rt : Runtime) (message : string)
    (remote : Remote) :
  reachable svs this rt ->
  is_Some (socket this) ->
  (parseString message = ParseError ->
   on_message this rt message remote
   = (Normal tt, this, rt, [LogTrace "Failed to parse discovery message:"]))
  /\ (forall result u e,
        parseString message = ParseOk result ->
        path result messageID_path = Normal u -> u <> VNull ->
        path result types_path = Throw e ->
        valid_port (remote_port remote) = true ->
        exists this' rt' evs,
          on_message this rt message remote = (Normal tt, this', rt', evs)
          /\ length (sends evs) = length svs).
Proof.
  intros Hreach [s Hs]. split.
  - intros Hparse. unfold on_message. by rewrite Hparse.
  - intros result u e Hparse Hid Hu Htypes Hport.
    pose proof (reachable_invariant _ _ _ Hreach) as (Hsvs & Hreg & Hok).
    subst svs.
    destruct (sockets_ok_response this s Hok Hs) as (r & Hr & _).
    destruct (extract_types_unreadable result u e Hid Hu Htypes)
      as (pu & _ & Hext).
    assert (Hans : accepted (parseString message) = Some pu).
    { unfold accepted. by rewrite Hparse, Hext. }
    destruct (on_parsed_answered this rt _ remote pu r Hans Hr Hport)
      as (m' & evs & Heq & Hlen & Hsends & _).
    eexists _, _, _. split; [unfold on_message; exact Heq |].
    by rewrite Hsends.
Qed.
(** *** Joining the multicast group *)

Lemma elem_of_set_add (h x : string) (l : list string) :
  h ∈ set_add x l <-> h = x \/ h ∈ l.
Proof.
  unfold set_add. case_decide as Hx.
  - split; [auto | by intros [->|?]].
  - rewrite elem_of_app, list_elem_of_singleton. tauto.
Qed.

Lemma NoDup_set_add (x : string) (l : list string) :
  NoDup l -> NoDup (set_add x l).
Proof.
  intros Hl. unfold set_add. case_decide as Hx; [done |].
  apply NoDup_app. split; [done |]. split; [| apply NoDup_singleton].
  intros y Hy Hyx. apply list_elem_of_singleton in Hyx. by subst.
Qed.

Lemma truthy_str_spec (s : string) : truthy_str s = true <-> s <> "".
Proof.
  unfold truthy_str. destruct (String.eqb_spec s ""); simpl; split; try done.
Qed.

Lemma collect_fold (svs : list Server) :
  forall acc : list string,
    NoDup acc ->
    let hs :=
      foldl (fun hostnames server =>
               let info := getDiscoveryInfo server in
               if truthy_str (hostname info)
               then set_add (hostname info) hostnames
               else hostnames) acc svs in
    NoDup hs
    /\ forall h, h ∈ hs
                 <-> h ∈ acc
                     \/ (h <> ""
                         /\ exists server,
                              server ∈ svs
                              /\ hostname (getDiscoveryInfo server) = h).
Proof.
  induction svs as [|s rest IH]; intros acc Hacc; simpl.
  - split; [done |]. intros h. split; [auto |].
    intros [?|(_ & server & Hin & _)]; [done |].
    by apply elem_of_nil in Hin.
  - destruct (truthy_str (hostname (getDiscoveryInfo s))) eqn:Htruthy.
    + destruct (IH _ (NoDup_set_add (hostname (getDiscoveryInfo s)) acc Hacc))
        as [Hnd Hiff].
      split; [exact Hnd |]. intros h. rewrite Hiff, elem_of_set_add.
      apply truthy_str_spec in Htruthy. split.
      * intros [[->|?]|(Hne & server & Hin & Heq)]; auto.
        -- right. split; [done |]. exists s. split; [| done].
           apply elem_of_cons. auto.
        -- right. split; [done |]. exists server. split; [| done].
           apply elem_of_cons. auto.
      * intros [?|(Hne & server & Hin & Heq)]; auto.
        apply elem_of_cons in Hin as [->|Hin]; [auto |].
        right. eauto.
    + destruct (IH _ Hacc) as [Hnd Hiff].
      split; [exact Hnd |]. intros h. rewrite Hiff. split.
      * intros [?|(Hne & server & Hin & Heq)]; auto.
        right. split; [done |]. exists server. split; [| done].
        apply elem_of_cons. auto.
      * intros [?|(Hne & server & Hin & Heq)]; auto.
        apply elem_of_cons in Hin as [->|Hin]; [| right; eauto].
        apply truthy_str_spec in Hne. congruence.
Qed.

(** The set built in the [bind] callback: the non-empty host addresses
    of the registered devices, each once. *)
Lemma collect_hostnames_spec (svs : list Server) :
  NoDup (collect_hostnames svs)
  /\ forall h, h ∈ collect_hostnames svs
               <-> h <> ""
                   /\ exists server,
                        server ∈ svs
                        /\ hostname (getDiscoveryInfo server) = h.
Proof.
  destruct (collect_fold svs [] (NoDup_nil_2)) as [Hnd Hiff].
  split; [exact Hnd |]. intros h. unfold collect_hostnames.
  rewrite Hiff. split; [| auto]. intros [Hin|?]; [| done].
  by apply elem_of_nil in Hin.
Qed.

Lemma memberships_app (evs1 evs2 : list event) :
  memberships (evs1 ++ evs2) = memberships evs1 ++ memberships evs2.
Proof. unfold memberships. by rewrite flat_map_app. Qed.

Lemma memberships_join (s : handle) (hs : list string) :
  memberships (flat_map (join (Some s)) hs)
  = map (fun h => (s, "239.255.255.250", h)) hs.
Proof.
  induction hs as [|h hs IH]; [done |].
  change (flat_map (join (Some s)) (h :: hs))
    with (join (Some s) h ++ flat_map (join (Some s)) hs).
  rewrite memberships_app, IH. simpl.
  by destruct (addMembership_ok _ h).
Qed.

Lemma join_failure_logged (s : handle) (hs : list string) (h : string) :
  h ∈ hs -> addMembership_ok "239.255.255.250" h = false ->
  LogError ("Failed to join multicast group on " +:+ h +:+ ":")
  ∈ flat_map (join (Some s)) hs.
Proof.
  intros Hin Hfail. apply list_elem_of_In, in_flat_map.
  exists h. split; [by apply list_elem_of_In |].
  simpl. rewrite Hfail. simpl. auto.
Qed.

(** C8: [start()] followed by the [bind] callback binds the receive
    socket to port 3702 and then asks to join group 239.255.255.250 on
    that socket once for each distinct non-empty host address among the
    registered devices, in order of first registration.  The list of
    join requests does not depend on which of them fail; every failed
    join is logged as an error, and nothing is thrown. *)
Theorem multicast_joins (this : DiscoveryServer) (rt : Runtime) :
  let s := sockets_created rt in
  let hs := collect_hostnames (servers this) in
  exists this' rt' evs,
    run (this, rt) [CallStart; Listening] = (this', rt', evs)
    /\ socket this' = Some s
    /\ Bind s 3702 ∈ evs
    /\ memberships evs = map (fun h => (s, "239.255.255.250", h)) hs
    /\ NoDup hs
    /\ (forall h, h ∈ hs
                  <-> h <> ""
                      /\ exists server,
                           server ∈ servers this
                           /\ hostname (getDiscoveryInfo server) = h)
    /\ (forall h, h ∈ hs -> addMembership_ok "239.255.255.250" h = false ->
          LogError ("Failed to join multicast group on " +:+ h +:+ ":")
          ∈ evs)
    /\ (forall e, Uncaught e ∉ evs).
Proof.
  intros s hs. eexists _, _, _. split; [reflexivity |].
  destruct (collect_hostnames_spec (servers this)) as [Hnd Hiff].
  simpl. split; [done |]. split; [| split; [| split; [| split; [| split]]]].
  - apply list_elem_of_In. simpl. auto.
  - rewrite app_nil_r. unfold on_listening. simpl.
    change (memberships (?e :: ?l)) with (memberships l).
    apply memberships_join.
  - exact Hnd.
  - exact Hiff.
  - intros h Hin Hfail. rewrite app_nil_r.
    do 3 apply list_elem_of_further. unfold on_listening.
    apply list_elem_of_further. by apply join_failure_logged.
  - intros e Hin. rewrite app_nil_r in Hin.
    do 3 (apply elem_of_cons in Hin as [?|Hin]; [done |]).
    unfold on_listening in Hin.
    apply elem_of_cons in Hin as [?|Hin]; [done |].
    apply list_elem_of_In, in_flat_map in Hin as (h & _ & Hin).
    simpl in Hin. destruct (addMembership_ok _ h); simpl in Hin;
      intuition discriminate.
Qed.

(** C9: [stop()] on an instance holding both sockets closes the receive
    socket and the send socket and clears both fields; on any instance
    it leaves both fields null, and a further [stop()] then closes
    nothing, changes nothing and raises nothing. *)
Theorem stop_idempotent (svs : list Server) (s r : handle)
    (m : gmap string number) (this : DiscoveryServer) :
  stop {| servers := svs; socket := Some s; responseSocket := Some r;
          messageCounters := m |}
  = ({| servers := svs; socket := None; responseSocket := None;
        messageCounters := m |},
     [Close s; Close r])
  /\ socket (fst (stop this)) = None
  /\ responseSocket (fst (stop this)) = None
  /\ stop (fst (stop this)) = (fst (stop this), []).
Proof.
  split; [reflexivity |].
  unfold stop. by destruct (socket this), (responseSocket this).
Qed.

(** *** Further properties of the message handler *)

Lemma on_parsed_quiet_cases (this : DiscoveryServer) (rt : Runtime)
    (p : parsed) (remote : Remote) :
  accepted p = None ->
  on_parsed this rt p remote
  = (Normal tt, this, rt, [LogTrace "Failed to parse discovery message:"])
  \/ on_parsed this rt p remote = (Normal tt, this, rt, [])
  \/ exists e, on_parsed this rt p remote = (Throw e, this, rt, []).
Proof.
  unfold accepted, on_parsed.
  destruct p as [|result]; [by left |].
  destruct (extract result) as [[pu pt]|e]; cbn [bind fst snd];
    [| intros _; right; right; by exists e].
  destruct (accepts pt) as [[|]|e]; cbn [bind]; intros Hq; [done | |].
  - right. by left.
  - right. right. by exists e.
Qed.

(** X1: in any state the instance can reach with its receive socket
    open, a datagram is answered for every registered device or for
    none.  Either the handler leaves the instance and the UUID generator
    untouched and sends nothing (and if it throws there, it has logged
    nothing); or the datagram comes from a source port that [send] takes
    (1 to 65535) and the handler returns normally after sending one
    datagram per registered device and drawing one UUID for each; or the
    source port is one that [send] refuses (port 0), and the handler
    logs the probe, composes the first device's ProbeMatch (one UUID is
    drawn and that device's counter is stored, advanced) and leaves with
    the [RangeError] of [send]: no datagram is sent and no other counter
    moves. *)
Theorem probe_all_or_nothing (svs : list Server) (this : DiscoveryServer)
    (rt : Runtime) (message : string) (remote : Remote) :
  reachable svs this rt ->
  is_Some (socket this) ->
  exists c this' rt' evs,
    on_message this rt message remote = (c, this', rt', evs)
    /\ ((this' = this /\ rt' = rt /\ sends evs = []
         /\ (forall e, c = Throw e -> evs = []))
        \/ (valid_port (remote_port remote) = true
            /\ c = Normal tt /\ length (sends evs) = length svs
            /\ uuids_drawn rt' = (uuids_drawn rt + length svs)%nat)
        \/ (valid_port (remote_port remote) = false
            /\ c = Throw RangeError /\ evs = [probe_received remote]
            /\ uuids_drawn rt' = S (uuids_drawn rt)
            /\ exists s rest,
                 svs = s :: rest
                 /\ messageCounters this'
                    = <[uuid (getDiscoveryInfo s)
                        := add1 (messageCounters this
                                   !! uuid (getDiscoveryInfo s))]>
                        (messageCounters this))).
Proof.
  intros Hreach [s Hs].
  pose proof (reachable_invariant _ _ _ Hreach) as (Hsvs & Hreg & Hok).
  subst svs.
  destruct (sockets_ok_response this s Hok Hs) as (r & Hr & _).
  unfold on_message.
  destruct (accepted (parseString message)) as [pu|] eqn:Hans.
  - destruct (valid_port (remote_port remote)) eqn:Hport.
    + destruct (on_parsed_answered this rt _ remote pu r Hans Hr Hport)
        as (m' & evs & Heq & Hlen & Hsends & _).
      eexists _, _, _, _. split; [exact Heq |].
      right. left. rewrite Hsends. by repeat split.
    + destruct (servers this) as [|s0 rest] eqn:Hsvs.
      * eexists _, _, _, _.
        split; [exact (on_parsed_no_devices this rt _ remote pu Hans Hsvs) |].
        left. split; [by apply instance_eq |].
        split; [by apply runtime_eq |]. by split.
      * assert (Herr : send_error (responseSocket this) remote
                       = Some RangeError).
        { unfold send_error, send. by rewrite Hr, Hport. }
        eexists _, _, _, _.
        split; [exact (on_parsed_throws this rt _ remote pu _ s0 rest
                         Hans Herr Hsvs) |].
        right. right. do 4 (split; [done |]). by exists s0, rest.
  - destruct (on_parsed_quiet_cases this rt _ remote Hans)
      as [Heq|[Heq|[e Heq]]];
      eexists _, _, _, _; (split; [exact Heq |]);
      left; repeat split; try done; intros e' He'; by try discriminate He'.
Qed.

Lemma send_normal (rsock : option handle) (payload : string)
    (remote : Remote) (sent : event) :
  send rsock payload remote = Normal sent ->
  exists h, rsock = Some h
            /\ sent = Send h payload (remote_port remote) (address remote).
Proof.
  unfold send. destruct rsock as [h|]; [| done].
  destruct (valid_port _); [| done]. intros [= <-]. by exists h.
Qed.

Lemma respond_each_events (svs : list Server) :
  forall probeUuid remote rsock (m : gmap string number) d c m' d' evs,
    respond_each svs probeUuid remote rsock m d = (c, m', d', evs) ->
    Forall (trace_or_send rsock) evs /\ (d <= d')%nat.
Proof.
  induction svs as [|s rest IH];
    intros probeUuid remote rsock m d c m' d' evs Heq; simpl in Heq.
  - injection Heq as <- <- <- <-. by split.
  - destruct (send rsock _ remote) as [sent|e] eqn:Hsend.
    + destruct (respond_each rest probeUuid remote rsock _ (S d))
        as [[[c1 m1] d1] evs1] eqn:Hrest.
      injection Heq as <- <- <- <-.
      destruct (IH _ _ _ _ _ _ _ _ _ Hrest) as [Hall Hle].
      destruct (send_normal _ _ _ _ Hsend) as (h & -> & ->).
      split; [by constructor | lia].
    + injection Heq as <- <- <- <-. split; [constructor | lia].
Qed.

(** X2: whatever the state, the message handler leaves the list of
    devices and both socket fields as they are, creates no socket, never
    takes back a UUID it has drawn, and emits nothing but trace lines and
    datagrams on the send socket: it never binds, joins, closes or logs
    an error. *)
Theorem handler_frame (this : DiscoveryServer) (rt : Runtime)
    (message : string) (remote : Remote) :
  exists c this' rt' evs,
    on_message this rt message remote = (c, this', rt', evs)
    /\ servers this' = servers this
    /\ socket this' = socket this
    /\ responseSocket this' = responseSocket this
    /\ sockets_created rt' = sockets_created rt
    /\ (uuids_drawn rt <= uuids_drawn rt')%nat
    /\ Forall (trace_or_send (responseSocket this)) evs.
Proof.
  unfold on_message, on_parsed.
  destruct (parseString message) as [|result].
  { eexists _, _, _, _. split; [reflexivity |].
    repeat split; try done. by repeat constructor. }
  destruct (extract result) as [[pu pt]|e]; cbn [bind fst snd];
    [| eexists _, _, _, _; split; [reflexivity |]; repeat split; done].
  destruct (accepts pt) as [[|]|e]; cbn [bind];
    try (eexists _, _, _, _; split; [reflexivity |]; repeat split; done).
  destruct (respond_each (servers this) pu remote (responseSocket this)
              (messageCounters this) (uuids_drawn rt))
    as [[[c m] d] evs] eqn:Heq.
  destruct (respond_each_events _ _ _ _ _ _ _ _ _ _ Heq) as [Hall Hle].
  eexists _, _, _, _. split; [reflexivity |].
  repeat split; try done. by constructor.
Qed.

(** X7: when the chain of reads to the message ID throws (no
    [Envelope], no [Header], no [MessageID], or an empty document), the
    error leaves the handler: nothing is logged by the handler, nothing
    is sent and nothing changes, whatever the type filter says.  The
    process-level handler then reports the error and the instance goes
    on as before. *)
Theorem unreadable_message_id_throws (this : DiscoveryServer) (rt : Runtime)
    (message : string) (remote : Remote) (result : value) (e : error)
    (s : handle) :
  parseString message = ParseOk result ->
  path result messageID_path = Throw e ->
  socket this = Some s ->
  on_message this rt message remote = (Throw e, this, rt, [])
  /\ step (this, rt) (Datagram message remote) = (this, rt, [Uncaught e]).
Proof.
  intros Hparse Hid Hs.
  assert (Heq : on_message this rt message remote = (Throw e, this, rt, [])).
  { unfold on_message, on_parsed, extract. by rewrite Hparse, Hid. }
  split; [exact Heq |]. simpl. unfold listening. by rewrite Hs, Heq.
Qed.

(** X5: the two representations of an element's text are
    interchangeable.  Two parsed documents whose message IDs hold the
    same text and whose type filters hold the same text, each as a plain
    string or as an object with the text under [_], are handled
    identically: same completion, same state, same events. *)
Theorem representation_independent (this : DiscoveryServer) (rt : Runtime)
    (remote : Remote) (result1 result2 u1 u2 t1 t2 : value)
    (id filter : string) :
  path result1 messageID_path = Normal u1 -> represents u1 id ->
  path result2 messageID_path = Normal u2 -> represents u2 id ->
  path result1 types_path = Normal t1 -> represents t1 filter ->
  path result2 types_path = Normal t2 -> represents t2 filter ->
  extract result1 = Normal (VStr id, VStr filter)
  /\ extract result2 = extract result1
  /\ on_parsed this rt (ParseOk result2) remote
     = on_parsed this rt (ParseOk result1) remote.
Proof.
  intros Hu1 Hr1 Hu2 Hr2 Ht1 Hf1 Ht2 Hf2.
  assert (He1 : extract result1 = Normal (VStr id, VStr filter)).
  { unfold extract. rewrite Hu1, Ht1. cbn [bind].
    by rewrite (text_of_represents _ _ Hf1), (text_of_represents _ _ Hr1). }
  assert (He2 : extract result2 = Normal (VStr id, VStr filter)).
  { unfold extract. rewrite Hu2, Ht2. cbn [bind].
    by rewrite (text_of_represents _ _ Hf2), (text_of_represents _ _ Hr2). }
  split; [exact He1 |]. split; [by rewrite He1, He2 |].
  unfold on_parsed. by rewrite He1, He2.
Qed.

(** *** Counters under shared UUIDs *)

(** X3: the counter map is keyed by UUID, whatever the UUIDs are.
    After any sequence of calls on an instance built for [svs], with [n]
    the number of probes answered in full and [f] the number of probes
    whose first datagram could not be sent: [n] datagrams per device
    have been sent, [n] UUIDs per device and [f] more have been drawn,
    the counter stored under a registered UUID is [n] times the number
    of devices registered under that UUID, plus [f] under the UUID of
    the first device, and no other key is in the map. *)
Theorem counters_by_uuid (svs : list Server) (rt0 : Runtime)
    (calls : list call) :
  let '(this, rt, evs) := run (constructor svs, rt0) calls in
  exists n f : nat,
    length (sends evs) = (n * length svs)%nat
    /\ uuids_drawn rt = (uuids_drawn rt0 + n * length svs + f)%nat
    /\ forall u,
         messageCounters this !! u
         = if decide (u ∈ uuids svs)
           then Some (Num (N.of_nat
                             (n * multiplicity svs u
                              + if decide (first_uuid svs = Some u)
                                then f else 0)))
           else None.
Proof.
  destruct (run (constructor svs, rt0) calls) as [[this rt] evs] eqn:Hrun.
  destruct (run_account calls _ _ _ _ _ Hrun)
    as (_ & n & f & Hlen & Hd & Hm).
  simpl servers in *. exists n, f. split; [done |]. split; [done |].
  intros u. rewrite Hm, constructor_counters.
  destruct (decide (u ∈ uuids svs)) as [Hu|Hu].
  - by rewrite bump_num.
  - unfold multiplicity. rewrite (count_absent _ _ Hu).
    rewrite decide_False, Nat.mul_0_r; [done |].
    intros Hfirst. by apply Hu, first_uuid_elem.
Qed.

(** *** One fresh message ID per datagram *)

Lemma response_message_id
    (messageID relatesTo messageNo u h p : string) :
  has_message_id (response messageID relatesTo messageNo u h p) messageID.
Proof.
  unfold has_message_id, response.
  match goal with
  | |- contains _ (?s0 +:+ _ +:+ ?s1 +:+ ?rest) =>
      set (S0 := s0); set (S1 := s1); set (R := rest)
  end.
  let a := before_suffix S0 "<wsa:MessageID>uuid:" in
  let b := after_prefix S1 "</wsa:MessageID>" in
  exists a, (b +:+ R); subst R; rewrite ?Text.append_assoc;
    vm_compute; reflexivity.
Qed.

Lemma seq_sorted (n : nat) : forall a, StronglySorted lt (seq a n).
Proof.
  induction n as [|n IH]; intros a; simpl; [constructor |].
  apply StronglySorted_cons. split; [| apply IH].
  apply Forall_seq. intros j Hj. lia.
Qed.

(** One call: the datagrams it sends carry, in order, UUIDs drawn during
    the call, each one drawn later than the one before. *)
Lemma step_draws (this this' : DiscoveryServer) (rt rt' : Runtime)
    (c : call) (evs : list event) :
  step (this, rt) c = (this', rt', evs) ->
  (uuids_drawn rt <= uuids_drawn rt')%nat
  /\ exists draws : list nat,
       Forall2 carries_draw (sends evs) draws
       /\ StronglySorted lt draws
       /\ Forall (fun a => (uuids_drawn rt <= a < uuids_drawn rt')%nat) draws.
Proof.
  assert (Hnone : forall evs0 : list event, forall rt1 : Runtime,
            sends evs0 = [] -> (uuids_drawn rt <= uuids_drawn rt1)%nat ->
            (uuids_drawn rt <= uuids_drawn rt1)%nat
            /\ exists draws : list nat,
                 Forall2 carries_draw (sends evs0) draws
                 /\ StronglySorted lt draws
                 /\ Forall (fun a => (uuids_drawn rt <= a
                                      < uuids_drawn rt1)%nat) draws).
  { intros evs0 rt1 -> Hle. split; [done |]. exists [].
    split; [constructor |]. split; constructor. }
  intros Hstep. destruct c as [| |message remote| |]; simpl in Hstep.
  - injection Hstep as <- <- <-. by apply (Hnone [_; _; _]).
  - destruct (listening this rt); injection Hstep as <- <- <-;
      [| by apply Hnone].
    apply Hnone; [| done]. unfold on_listening.
    change (sends (?e :: ?l)) with (sends l). apply sends_join.
  - destruct (listening this rt);
      [| injection Hstep as <- <- <-; by apply Hnone].
    unfold on_message in Hstep.
    destruct (accepted (parseString message)) as [pu|] eqn:Hans.
    + destruct (servers this) as [|s rest] eqn:Hsvs.
      { rewrite (on_parsed_no_devices this rt _ remote pu Hans Hsvs)
          in Hstep.
        injection Hstep as <- <- <-. by apply Hnone. }
      destruct (send_error (responseSocket this) remote) as [e|] eqn:Herr.
      * rewrite (on_parsed_throws this rt _ remote pu e s rest Hans Herr Hsvs)
          in Hstep.
        injection Hstep as <- <- <-. apply Hnone; [done | simpl; lia].
      * destruct (send_error_none _ _ Herr) as (r & Hr & Hport & _).
        destruct (on_parsed_answered this rt _ remote pu r Hans Hr Hport)
          as (m' & sent & Heq & Hlen & Hsends & _ & Hk).
        rewrite Heq in Hstep. injection Hstep as <- <- <-.
        rewrite app_nil_r, Hsends. cbn [uuids_drawn].
        split; [lia |].
        exists (seq (uuids_drawn rt) (length (servers this))).
        split; [| split].
        -- apply Forall2_same_length_lookup_2;
             [by rewrite length_seq |].
           intros i e0 a Hi Ha. apply lookup_seq in Ha as [-> Hlt].
           destruct (lookup_lt_is_Some_2 (servers this) i Hlt)
             as [server Hserver].
           rewrite (Hk i server Hserver) in Hi. injection Hi as <-.
           eexists. split; [reflexivity |]. apply response_message_id.
        -- apply seq_sorted.
        -- apply Forall_seq. intros j Hj. lia.
    + destruct (on_parsed_quiet this rt _ remote Hans)
        as (c & evs' & Heq & Hsends).
      rewrite Heq in Hstep. injection Hstep as <- <- <-.
      apply Hnone; [| done]. rewrite sends_app, Hsends. by destruct c.
  - destruct (listening this rt); injection Hstep as <- <- <-;
      by apply Hnone.
  - unfold stop in Hstep.
    destruct (socket this), (responseSocket this);
      injection Hstep as <- <- <-;
      by apply (Hnone [_; _]) || by apply (Hnone [_]) || by apply (Hnone []).
Qed.

Lemma run_draws (calls : list call) :
  forall this rt this' rt' evs,
    run (this, rt) calls = (this', rt', evs) ->
    (uuids_drawn rt <= uuids_drawn rt')%nat
    /\ exists draws : list nat,
         Forall2 carries_draw (sends evs) draws
         /\ StronglySorted lt draws
         /\ Forall (fun a => (uuids_drawn rt <= a < uuids_drawn rt')%nat)
                   draws.
Proof.
  induction calls as [|c rest IH]; intros this rt this' rt' evs Hrun.
  - injection Hrun as <- <- <-. split; [done |]. exists [].
    split; [constructor |]. split; constructor.
  - rewrite run_cons in Hrun.
    destruct (step (this, rt) c) as [[this1 rt1] evs1] eqn:Hstep.
    destruct (run (this1, rt1) rest) as [[this2 rt2] evs2] eqn:Hrest.
    injection Hrun as <- <- <-.
    destruct (step_draws _ _ _ _ _ _ Hstep)
      as (Hle1 & draws1 & Hc1 & Hs1 & Hr1).
    destruct (IH _ _ _ _ _ Hrest) as (Hle2 & draws2 & Hc2 & Hs2 & Hr2).
    split; [lia |]. exists (draws1 ++ draws2).
    rewrite sends_app. split; [by apply Forall2_app |]. split.
    + apply StronglySorted_app_2; [| done | done].
      intros a b Ha Hb.
      rewrite Forall_forall in Hr1. rewrite Forall_forall in Hr2.
      specialize (Hr1 a Ha). specialize (Hr2 b Hb). lia.
    + apply Forall_app. split.
      * eapply Forall_impl; [exact Hr1 |]. intros a Ha. simpl in Ha. lia.
      * eapply Forall_impl; [exact Hr2 |]. intros a Ha. simpl in Ha. lia.
Qed.

(** X4: every datagram carries a message ID of its own.  Over any
    sequence of calls on an instance, the datagrams sent carry as their
    own [MessageID], one after the other, [uuid:] followed by UUIDs
    drawn from [uuid.v1] since the instance was built, each datagram a
    later draw than the datagram before it: no draw is used for two
    datagrams. *)
Theorem one_draw_per_datagram (svs : list Server) (rt0 : Runtime)
    (calls : list call) :
  let '(_, rt, evs) := run (constructor svs, rt0) calls in
  exists draws : list nat,
    Forall2 carries_draw (sends evs) draws
    /\ StronglySorted lt draws
    /\ Forall (fun a => (uuids_drawn rt0 <= a < uuids_drawn rt)%nat) draws.
Proof.
  destruct (run (constructor svs, rt0) calls) as [[this rt] evs] eqn:Hrun.
  exact (proj2 (run_draws calls _ _ _ _ _ Hrun)).
Qed.
(** *** A message ID without text *)

Lemma answered_extract (p : parsed) (probeUuid : value) :
  accepted p = Some probeUuid ->
  exists result probeType,
    p = ParseOk result /\ extract result = Normal (probeUuid, probeType).
Proof.
  unfold accepted. destruct p as [|result]; [done |].
  destruct (extract result) as [[pu pt]|e] eqn:Hext; [| done].
  destruct (accepts pt) as [[|]|e]; try done.
  intros [= ->]. by exists result, pt.
Qed.

Lemma extract_message_id (result u probeUuid probeType : value) :
  path result messageID_path = Normal u ->
  extract result = Normal (probeUuid, probeType) ->
  text_of u = Normal probeUuid.
Proof.
  intros Hid. unfold extract. rewrite Hid. cbn [bind].
  destruct (text_of _) as [pt|e]; cbn [bind]; [| done].
  destruct (text_of u) as [pu|e]; cbn [bind]; [| done].
  by intros [= -> _].
Qed.

(** X6: a probe whose [MessageID] element carries attributes but no
    text reaches the handler as an object without [_].  If its type
    filter is accepted and it comes from a source port that [send] takes
    (1 to 65535), it is answered like any other probe, and every
    datagram sent for it carries [RelatesTo] with the text
    [undefined]. *)
Theorem message_id_without_text (svs : list Server) (this : DiscoveryServer)
    (rt : Runtime) (message : string) (remote : Remote)
    (result : value) (fields : list (string * value)) (probeUuid : value) :
  reachable svs this rt ->
  is_Some (socket this) ->
  valid_port (remote_port remote) = true ->
  parseString message = ParseOk result ->
  path result messageID_path = Normal (VObj fields) ->
  assoc "_" fields = VUndefined ->
  accepted (parseString message) = Some probeUuid ->
  probeUuid = VUndefined
  /\ exists this' rt' evs,
       on_message this rt message remote = (Normal tt, this', rt', evs)
       /\ length (sends evs) = length svs
       /\ forall i e, sends evs !! i = Some e ->
            exists payload,
              payload_of e = Some payload
              /\ contains "<wsa:RelatesTo>undefined</wsa:RelatesTo>" payload.
Proof.
  intros Hreach [s Hs] Hport Hparse Hid Hnone Hans.
  assert (Hpu : probeUuid = VUndefined).
  { destruct (answered_extract _ _ Hans) as (result' & pt & Hp & Hext).
    rewrite Hparse in Hp. injection Hp as <-.
    pose proof (extract_message_id _ _ _ _ Hid Hext) as Htext.
    unfold text_of in Htext. simpl in Htext. rewrite Hnone in Htext.
    by injection Htext as <-. }
  split; [exact Hpu |]. subst probeUuid.
  pose proof (reachable_invariant _ _ _ Hreach) as (Hsvs & Hreg & Hok).
  subst svs.
  destruct (sockets_ok_response this s Hok Hs) as (r & Hr & _).
  destruct (on_parsed_answered this rt _ remote VUndefined r Hans Hr Hport)
    as (m' & evs & Heq & Hlen & Hsends & _ & Hk).
  eexists _, _, _. split; [unfold on_message; exact Heq |].
  rewrite Hsends. split; [exact Hlen |].
  intros i e Hi.
  destruct (lookup_lt_is_Some_2 (servers this) i) as [server Hserver].
  { rewrite <- Hlen. eapply lookup_lt_Some, Hi. }
  rewrite (Hk i server Hserver) in Hi. injection Hi as <-.
  eexists. split; [reflexivity |].
  unfold probe_match.
  match goal with
  | |- contains _ (response ?a ?b ?c _ _ _) =>
      pose proof (response_carries a b c (getDiscoveryInfo server))
        as (Hrel & _)
  end.
  exact Hrel.
Qed.

(** *** Which interfaces are joined *)

Lemma collect_distinct (svs : list Server) :
  forall acc : list string,
    NoDup (acc ++ hostnames svs) ->
    Forall (fun h => h <> "") (hostnames svs) ->
    foldl (fun hs server =>
             let info := getDiscoveryInfo server in
             if truthy_str (hostname info)
             then set_add (hostname info) hs
             else hs) acc svs
    = acc ++ hostnames svs.
Proof.
  induction svs as [|s rest IH]; intros acc Hnd Hne; simpl.
  - by rewrite app_nil_r.
  - change (hostnames (s :: rest))
      with (hostname (getDiscoveryInfo s) :: hostnames rest) in *.
    apply Forall_cons in Hne as [Hs Hrest].
    apply truthy_str_spec in Hs. rewrite Hs.
    unfold set_add. rewrite decide_False.
    + rewrite IH; [by rewrite <- app_assoc | by rewrite <- app_assoc | done].
    + apply NoDup_app in Hnd as (_ & Hdisj & _).
      intros Hin. apply (Hdisj _ Hin). apply list_elem_of_here.
Qed.

Lemma collect_same (svs : list Server) (h : string) :
  forall acc : list string,
    h ∈ acc -> h <> "" ->
    Forall (fun x => x = h) (hostnames svs) ->
    foldl (fun hs server =>
             let info := getDiscoveryInfo server in
             if truthy_str (hostname info)
             then set_add (hostname info) hs
             else hs) acc svs
    = acc.
Proof.
  induction svs as [|s rest IH]; intros acc Hin Hne Hall; simpl; [done |].
  change (hostnames (s :: rest))
    with (hostname (getDiscoveryInfo s) :: hostnames rest) in Hall.
  apply Forall_cons in Hall as [Hs Hrest]. rewrite Hs.
  apply truthy_str_spec in Hne as Htruthy. rewrite Htruthy.
  unfold set_add. rewrite decide_True by done. by apply IH.
Qed.

(** X8: when the registered devices have non-empty, pairwise distinct
    host addresses, the [bind] callback asks for exactly one group
    membership per device, on the receive socket, in registration
    order. *)
Theorem one_join_per_device (this : DiscoveryServer) (s : handle) :
  socket this = Some s ->
  NoDup (hostnames (servers this)) ->
  Forall (fun h => h <> "") (hostnames (servers this)) ->
  memberships (on_listening this)
  = map (fun h => (s, "239.255.255.250", h)) (hostnames (servers this)).
Proof.
  intros Hs Hnd Hne. unfold on_listening.
  change (memberships (?e :: ?l)) with (memberships l).
  rewrite Hs, memberships_join. f_equal.
  unfold collect_hostnames. by rewrite collect_distinct.
Qed.

(** X9: when all registered devices share one non-empty host address,
    the [bind] callback asks for a single group membership, however many
    devices there are. *)
Theorem shared_address_joined_once (this : DiscoveryServer) (s : handle)
    (h : string) :
  socket this = Some s ->
  h <> "" ->
  servers this <> [] ->
  Forall (fun x => x = h) (hostnames (servers this)) ->
  memberships (on_listening this) = [(s, "239.255.255.250", h)].
Proof.
  intros Hs Hne Hsome Hall. unfold on_listening.
  change (memberships (?e :: ?l)) with (memberships l).
  rewrite Hs, memberships_join.
  unfold collect_hostnames.
  destruct (servers this) as [|s0 rest]; [done |].
  change (hostnames (s0 :: rest))
    with (hostname (getDiscoveryInfo s0) :: hostnames rest) in Hall.
  apply Forall_cons in Hall as [Hs0 Hrest].
  simpl foldl. rewrite Hs0.
  apply truthy_str_spec in Hne as Htruthy. rewrite Htruthy.
  change (set_add h []) with [h].
  match goal with
  | |- map _ ?l = _ => replace l with [h]; [done |]
  end.
  symmetry.
  apply (collect_same rest h [h]); [apply list_elem_of_here | done | done].
Qed.

End WithPlatform.

Import DiscoveryExamples.

Lemma reachable_started (svs : list DiscoveryInfo) :
  reachable (H := demo) svs (started svs) after_start.
Proof. eexists fresh, [CallStart], _. by split. Qed.

Lemma sequence_counters_witness :
  counter (constructor (H := demo) [cam1; cam2]) cam2 = Some (Num 0).
Proof.
  refine (proj1 (sequence_counters (H := demo) [cam1; cam2] _) cam2 _).
  - apply (bool_decide_unpack _). vm_compute. reflexivity.
  - apply list_elem_of_In. simpl. auto.
Defined.



Lemma unparsed_dropped_witness :
  on_message (started [cam1]) after_start "not xml" prober
  = (Normal tt, started [cam1], after_start,
     [LogTrace "Failed to parse discovery message:"]).
Proof.
  exact (proj1 (unparsed_dropped_untyped_answered (H := demo) [cam1]
                  (started [cam1]) after_start "not xml" prober
                  (reachable_started _) (ex_intro _ 0%nat eq_refl))
               eq_refl).
Defined.

(** C5 (as stated) fails for a datagram without a [Body]: its type
    filter cannot be read, yet it is answered like a generic probe. *)
Lemma missing_body_is_answered :
  ~ malformed_dropped (H := demo) [cam1].
Proof.
  intros Hclaim.
  destruct (Hclaim (started [cam1]) after_start probe_no_body prober
              (reachable_started _) (ex_intro _ 0%nat eq_refl))
    as (evs & Heq & Hnone & _).
  - right. exists TypeError. reflexivity.
  - apply (f_equal (fun x => length (sends (snd x)))) in Heq.
    simpl snd in Heq. rewrite Hnone in Heq.
    vm_compute in Heq. discriminate Heq.
Qed.

(** C6: the code at a probe whose [Types] element has an attribute and
    no text.  [xml2js] represents the element as an object without [_];
    the extracted type filter is [undefined], not the empty string, and
    the type test throws. *)
Theorem types_without_text_throws :
  parseString (Platform := demo) probe_types_attr_only
  = ParseOk doc_types_attr_only
  /\ extract doc_types_attr_only = Normal (VStr "uuid:probe-5", VUndefined)
  /\ on_message (started [cam1]) after_start probe_types_attr_only prober
     = (Throw TypeError, started [cam1], after_start, []).
Proof. repeat split; vm_compute; reflexivity. Qed.

(** Three devices, two generic probes from the same source: three
    datagrams per probe, numbered 0 for every device on the first probe
    and 1 on the second. *)
Example three_devices_two_probes :
  let '(this, _, evs) :=
    run (constructor (H := demo) [cam1; cam2; cam3], fresh)
        [CallStart; Listening;
         Datagram probe_generic prober; Datagram probe_generic prober] in
  let reply k n cam :=
    Send 1 (probe_match (H := demo) (VStr "uuid:probe-1") 0 k
              (Some (Num n)) cam)
         51234 "10.0.0.99" in
  sends evs = [reply 0%nat 0%N cam1; reply 1%nat 0%N cam2;
               reply 2%nat 0%N cam3; reply 3%nat 1%N cam1;
               reply 4%nat 1%N cam2; reply 5%nat 1%N cam3]
  /\ map (counter this) [cam1; cam2; cam3]
     = [Some (Num 2); Some (Num 2); Some (Num 2)]
  /\ memberships evs = [(0%nat, "239.255.255.250", "10.0.0.5");
                        (0%nat, "239.255.255.250", "10.0.0.6")].
Proof. vm_compute. repeat split. Qed.

(** A datagram without a [Header]: the read of the message ID throws
    out of the parser callback; nothing is sent and nothing changes. *)
Example missing_header_throws :
  on_message (started [cam1]) after_start probe_no_header prober
  = (Throw TypeError, started [cam1], after_start, []).
Proof. vm_compute. reflexivity. Qed.

(** A generic probe from source port 0, two devices: the probe is
    logged, the first device's ProbeMatch is composed (one UUID drawn,
    its counter stored as 1), [send] throws, and the second device is
    not reached. *)
Example probe_from_port_zero :
  let '(c, this', rt', evs) :=
    on_message (started [cam1; cam2]) after_start probe_generic portless in
  c = Throw RangeError
  /\ evs = [LogTrace "Discovery probe received from 10.0.0.99:0"]
  /\ uuids_drawn rt' = 1%nat
  /\ map (counter this') [cam1; cam2] = [Some (Num 1); Some (Num 0)].
Proof. vm_compute. repeat split. Qed.

(** [start()] twice, then [stop()]: the receive socket of the first
    [start()] is still open and still delivers datagrams to the handler,
    which finds [this.responseSocket] null. *)
Example restarted_then_stopped :
  let '(this, rt, evs) :=
    run (constructor (H := demo) [cam1; cam2], fresh)
        [CallStart; CallStart; CallStop; Datagram probe_generic prober] in
  socket this = None /\ responseSocket this = None
  /\ orphans rt = [0%nat]
  /\ evs = [CreateSocket 0 true; CreateSocket 1 false; Bind 0 3702;
            CreateSocket 2 true; CreateSocket 3 false; Bind 2 3702;
            Close 2; Close 3;
            LogTrace "Discovery probe received from 10.0.0.99:51234";
            Uncaught TypeError]
  /\ uuids_drawn rt = 1%nat
  /\ map (counter this) [cam1; cam2] = [Some (Num 1); Some (Num 0)].
Proof. vm_compute. repeat split. Qed.

(** Before [start()] and after a [stop()] that closed the only receive
    socket, no datagram reaches the handler. *)
Example no_socket_no_handler :
  run (constructor (H := demo) [cam1], fresh)
      [Datagram probe_generic prober; CallStart; CallStop;
       Datagram probe_generic prober; Listening; SocketError]
  = (constructor (H := demo) [cam1],
     {| sockets_created := 2; uuids_drawn := 0; orphans := [] |},
     [CreateSocket 0 true; CreateSocket 1 false; Bind 0 3702;
      Close 0; Close 1]).
Proof. vm_compute. reflexivity. Qed.

(** *** Witnesses of the further properties *)

Lemma reachable_started_more (svs : list DiscoveryInfo) :
  reachable (H := demo_more) svs (started_more svs) after_start.
Proof. eexists fresh, [CallStart], _. by split. Qed.

Lemma probe_all_or_nothing_witness :
  exists c this' rt' evs,
    on_message (started [cam1; cam2]) after_start probe_generic portless
    = (c, this', rt', evs)
    /\ (length (sends evs) = 0%nat \/ length (sends evs) = 2%nat).
Proof.
  destruct (probe_all_or_nothing (H := demo) [cam1; cam2]
              (started [cam1; cam2]) after_start probe_generic portless
              (reachable_started _) (ex_intro _ 0%nat eq_refl))
    as (c & this' & rt' & evs & Heq
        & [(_ & _ & Hs & _)|[(_ & _ & Hlen & _)|(_ & _ & Hevs & _)]]);
    exists c, this', rt', evs; (split; [exact Heq |]).
  - left. by rewrite Hs.
  - by right.
  - left. by rewrite Hevs.
Defined.

Lemma unreadable_message_id_throws_witness :
  on_message (started [cam1]) after_start probe_no_header prober
  = (Throw TypeError, started [cam1], after_start, [])
  /\ step (started [cam1], after_start) (Datagram probe_no_header prober)
     = (started [cam1], after_start, [Uncaught TypeError]).
Proof.
  exact (unreadable_message_id_throws (H := demo) (started [cam1])
           after_start probe_no_header prober doc_no_header TypeError 0%nat
           eq_refl eq_refl eq_refl).
Defined.

Lemma representation_independent_witness :
  extract doc_nvt
  = Normal (VStr "uuid:probe-2", VStr "dn:NetworkVideoTransmitter")
  /\ extract doc_nvt_attr = extract doc_nvt
  /\ on_parsed (started [cam1; cam2]) after_start (ParseOk doc_nvt_attr) prober
     = on_parsed (started [cam1; cam2]) after_start (ParseOk doc_nvt) prober.
Proof.
  refine (representation_independent (H := demo) (started [cam1; cam2])
            after_start prober doc_nvt doc_nvt_attr
            _ _ _ _ "uuid:probe-2" "dn:NetworkVideoTransmitter"
            eq_refl (or_introl eq_refl)
            eq_refl (or_intror (ex_intro _ _ (conj eq_refl eq_refl)))
            eq_refl (or_introl eq_refl)
            eq_refl (or_intror (ex_intro _ _ (conj eq_refl eq_refl)))).
Defined.

Lemma message_id_without_text_witness :
  exists this' rt' evs,
    on_message (started_more [cam1; cam2]) after_start probe_id_attr_only
               prober
    = (Normal tt, this', rt', evs)
    /\ length (sends evs) = 2%nat.
Proof.
  destruct (message_id_without_text (H := demo_more) [cam1; cam2]
              (started_more [cam1; cam2]) after_start probe_id_attr_only
              prober doc_id_attr_only [("$", VObj [("a", VStr "1")])]
              VUndefined
              (reachable_started_more _) (ex_intro _ 0%nat eq_refl)
              eq_refl eq_refl eq_refl eq_refl eq_refl)
    as (_ & this' & rt' & evs & Heq & Hlen & _).
  exists this', rt', evs. by split.
Defined.

Lemma distinct_addresses :
  NoDup (hostnames (H := demo) [cam1; cam2]).
Proof. apply (bool_decide_unpack _). vm_compute. reflexivity. Defined.

Lemma nonempty_addresses :
  Forall (fun h => h <> "") (hostnames (H := demo) [cam1; cam2]).
Proof. repeat constructor; discriminate. Defined.

Lemma one_join_per_device_witness :
  memberships (on_listening (started [cam1; cam2]))
  = [(0%nat, "239.255.255.250", "10.0.0.5");
     (0%nat, "239.255.255.250", "10.0.0.6")].
Proof.
  exact (one_join_per_device (H := demo) (started [cam1; cam2]) 0%nat
           eq_refl distinct_addresses nonempty_addresses).
Defined.

Lemma same_address :
  Forall (fun x => x = "10.0.0.5") (hostnames (H := demo) [cam1; cam3]).
Proof. repeat constructor. Defined.

Lemma shared_address_joined_once_witness :
  memberships (on_listening (started [cam1; cam3]))
  = [(0%nat, "239.255.255.250", "10.0.0.5")].
Proof.
  refine (shared_address_joined_once (H := demo) (started [cam1; cam3])
            0%nat "10.0.0.5" eq_refl _ _ same_address); discriminate.
Defined.

End DiscoveryProofs.

(** ** Startup *)

Module MainProofs.
Import Main.

Section WithHost.
Context `{Host}.

Lemma push_proxies_spec (direct : bool) (s : Server) (c : OnvifConfig)
    (proxies : list Proxy) :
  push_proxies direct s c proxies = proxies ++ spec_routes direct s c.
Proof.
  unfold push_proxies, spec_routes, rtsp_route, snapshot_route.
  destruct direct; simpl; [by rewrite app_nil_r |].
  destruct (truthy_port (rtsp (ports c))
            && truthy_port (rtsp (target_ports (target c))));
    destruct (truthy_port (snapshot (ports c))
              && truthy_port (snapshot (target_ports (target c))));
    simpl; rewrite <- ?app_assoc, ?app_nil_r; reflexivity.
Qed.

(** The loop when every remaining MAC address resolves. *)
Lemma start_devices_completed (debug direct : bool)
    (configs : list OnvifConfig) :
  forall servers proxies,
    Forall (fun c => truthy_hostname (getHostname (createServer c direct))
                     = true) configs ->
    start_devices debug direct configs servers proxies
    = (Completed,
       servers ++ map (fun c => createServer c direct) configs,
       proxies ++ flat_map (fun c => spec_routes direct (createServer c direct) c)
                           configs,
       flat_map (fun c => start_events debug direct (createServer c direct) c)
                configs).
Proof.
  induction configs as [|c rest IH]; intros servers proxies Hall.
  - simpl. by rewrite !app_nil_r.
  - apply Forall_cons in Hall as [Hc Hrest].
    simpl. rewrite Hc, (IH _ _ Hrest), push_proxies_spec.
    by rewrite <- !app_assoc.
Qed.

(** The loop when the first MAC address that does not resolve is that
    of [bad]. *)
Lemma start_devices_exited (debug direct : bool) (pre : list OnvifConfig)
    (bad : OnvifConfig) (post : list OnvifConfig) :
  forall servers proxies,
    Forall (fun c => truthy_hostname (getHostname (createServer c direct))
                     = true) pre ->
    truthy_hostname (getHostname (createServer bad direct)) = false ->
    start_devices debug direct (pre ++ bad :: post) servers proxies
    = (Exited (-1),
       servers ++ map (fun c => createServer c direct) pre,
       proxies ++ flat_map (fun c => spec_routes direct (createServer c direct) c)
                           pre,
       flat_map (fun c => start_events debug direct (createServer c direct) c)
                pre
       ++ exit_events direct bad).
Proof.
  induction pre as [|c rest IH]; intros servers proxies Hall Hbad.
  - simpl. rewrite Hbad. by rewrite !app_nil_r.
  - apply Forall_cons in Hall as [Hc Hrest].
    simpl. rewrite Hc, (IH _ _ Hrest Hbad), push_proxies_spec.
    by rewrite <- !app_assoc.
Qed.

(** *** Reading the traces *)

Lemma flat_map_nested {A B C} (g : B -> list C) (f : A -> list B)
    (l : list A) :
  flat_map g (flat_map f l) = flat_map (fun x => flat_map g (f x)) l.
Proof.
  induction l as [|x l IH]; simpl; [done |].
  by rewrite flat_map_app, IH.
Qed.

Lemma flat_map_nil {A B} (f : A -> list B) (l : list A) :
  (forall x, f x = []) -> flat_map f l = [].
Proof. intros Hf. induction l as [|x l IH]; simpl; [done |]. by rewrite Hf. Qed.

Lemma flat_map_singleton {A B} (f : A -> list B) (g : A -> B) (l : list A) :
  (forall x, f x = [g x]) -> flat_map f l = map g l.
Proof.
  intros Hf. induction l as [|x l IH]; simpl; [done |]. by rewrite Hf, IH.
Qed.

Lemma lifecycle_app (evs1 evs2 : list event) :
  lifecycle (evs1 ++ evs2) = lifecycle evs1 ++ lifecycle evs2.
Proof. apply List.filter_app. Qed.

Lemma lifecycle_flat_map {A} (f : A -> list event) (l : list A) :
  lifecycle (flat_map f l) = flat_map (fun x => lifecycle (f x)) l.
Proof.
  induction l as [|x l IH]; simpl; [done |].
  by rewrite lifecycle_app, IH.
Qed.

Lemma lifecycle_start_events (debug direct : bool) (s : Server)
    (c : OnvifConfig) :
  lifecycle (start_events debug direct s c)
  = [CreateServer c direct; StartServer s; Sleep 2000].
Proof. by destruct debug. Qed.

Lemma lifecycle_direct_notice (direct : bool) :
  lifecycle (direct_notice direct) = [].
Proof. by destruct direct. Qed.

Lemma lifecycle_start_proxies (proxies : list Proxy) :
  lifecycle (flat_map start_proxy proxies) = [].
Proof. rewrite lifecycle_flat_map. by apply flat_map_nil. Qed.

Lemma lifecycle_discovery_events (servers : list Server) :
  lifecycle (discovery_events servers)
  = match servers with
    | [] => []
    | _ => [CreateDiscoveryServer servers; DiscoveryStart]
    end.
Proof. by destruct servers. Qed.

Lemma startup_completed (debug : bool) (config : Config) :
  Forall (fun c => resolves config c = true) (onvif config) ->
  startup debug config
  = (Completed,
     direct_notice (direct_mode config)
     ++ flat_map (fun c => start_events debug (direct_mode config)
                             (device config c) c) (onvif config)
     ++ discovery_events (map (device config) (onvif config))
     ++ flat_map start_proxy
          (flat_map (fun c => spec_routes (direct_mode config)
                                (device config c) c) (onvif config))).
Proof.
  intros Hall. unfold startup.
  fold (direct_mode config).
  by rewrite (start_devices_completed debug (direct_mode config)
                (onvif config) [] [] Hall).
Qed.

Lemma startup_exited (debug : bool) (config : Config)
    (pre : list OnvifConfig) (bad : OnvifConfig) (post : list OnvifConfig) :
  onvif config = pre ++ bad :: post ->
  Forall (fun c => resolves config c = true) pre ->
  resolves config bad = false ->
  startup debug config
  = (Exited (-1),
     direct_notice (direct_mode config)
     ++ flat_map (fun c => start_events debug (direct_mode config)
                             (device config c) c) pre
     ++ exit_events (direct_mode config) bad).
Proof.
  intros Hcfg Hall Hbad. unfold startup.
  fold (direct_mode config). rewrite Hcfg.
  by rewrite (start_devices_exited debug (direct_mode config)
                pre bad post [] [] Hall Hbad).
Qed.

(** Unfolds one of the readings of a trace over a concatenation. *)
Ltac read_trace :=
  unfold started, created, discovery_servers, requested;
  rewrite ?flat_map_app, ?flat_map_nested.

(** C1 (as amended): when the MAC address of a configured device does
    not resolve and those of all devices before it do, the failure is
    reported with an error naming the MAC address and the process exits
    with status -1.  The devices before it have been created and
    started; the failing device is created but not started; no device
    after it is created or started, no discovery server is created and
    no relay route is requested. *)
Theorem unresolved_mac_exits (debug : bool) (config : Config)
    (pre : list OnvifConfig) (bad : OnvifConfig) (post : list OnvifConfig) :
  onvif config = pre ++ bad :: post ->
  Forall (fun c => resolves config c = true) pre ->
  resolves config bad = false ->
  exists evs,
    startup debug config = (Exited (-1), evs)
    /\ LogError ("Failed to find IP address for MAC address " +:+ mac bad)
       ∈ evs
    /\ last evs = Some (ProcessExit (-1))
    /\ created evs = pre ++ [bad]
    /\ started evs = map (device config) pre
    /\ discovery_servers evs = []
    /\ requested evs = [].
Proof.
  intros Hcfg Hall Hbad.
  rewrite (startup_exited debug config pre bad post Hcfg Hall Hbad).
  eexists. split; [reflexivity |].
  split; [| split; [| split; [| split; [| split]]]].
  - apply elem_of_app; right. apply elem_of_app; right.
    unfold exit_events. apply list_elem_of_further, list_elem_of_here.
  - unfold exit_events.
    change [?a; ?b; ?c] with ([a; b] ++ [c]).
    rewrite !app_assoc. apply last_snoc.
  - read_trace.
    rewrite (flat_map_singleton _ (fun c => c));
      [| intros c; by destruct debug].
    rewrite map_id. by destruct (direct_mode config).
  - read_trace.
    rewrite (flat_map_singleton _ (device config));
      [| intros c; by destruct debug].
    destruct (direct_mode config); simpl; by rewrite app_nil_r.
  - read_trace.
    rewrite (flat_map_nil _ pre); [| intros c; by destruct debug].
    by destruct (direct_mode config).
  - read_trace.
    rewrite (flat_map_nil _ pre); [| intros c; by destruct debug].
    by destruct (direct_mode config).
Qed.

(** C7 (as amended): when every configured MAC address resolves, the
    routine runs to its end; the devices are handled one after the other
    in configuration order, each one created, started and followed by a
    pause of 2000 ms before the next is created; and after the last
    pause, if at least one device is configured, exactly one discovery
    server is created, with the servers of all configured devices in
    configuration order, and started once.  With an empty configuration
    no discovery server is created. *)
Theorem sequential_startup (debug : bool) (config : Config) :
  Forall (fun c => resolves config c = true) (onvif config) ->
  exists evs,
    startup debug config = (Completed, evs)
    /\ lifecycle evs
       = flat_map (fun c => [CreateServer c (direct_mode config);
                             StartServer (device config c);
                             Sleep 2000])
                  (onvif config)
         ++ match onvif config with
            | [] => []
            | _ => [CreateDiscoveryServer (map (device config) (onvif config));
                    DiscoveryStart]
            end.
Proof.
  intros Hall. rewrite (startup_completed debug config Hall).
  eexists. split; [reflexivity |].
  rewrite !lifecycle_app, lifecycle_direct_notice, lifecycle_flat_map,
    lifecycle_discovery_events, lifecycle_start_proxies, app_nil_r.
  rewrite (flat_map_ext _
             (fun c => [CreateServer c (direct_mode config);
                        StartServer (device config c);
                        Sleep 2000]));
    [| intros c; apply lifecycle_start_events].
  rewrite app_nil_l. f_equal. by destruct (onvif config).
Qed.

Lemma requested_start_proxies (proxies : list Proxy) :
  requested (flat_map start_proxy proxies) = proxies.
Proof.
  read_trace. rewrite (flat_map_singleton _ (fun p => p)); [| done].
  apply map_id.
Qed.

Lemma rtsp_route_requested (s : Server) (c : OnvifConfig) :
  rtsp_route s c ∈ spec_routes false s c
  <-> configured (rtsp (ports c))
      /\ configured (rtsp (target_ports (target c))).
Proof.
  unfold spec_routes, configured.
  destruct (truthy_port (rtsp (ports c))) eqn:H1,
           (truthy_port (rtsp (target_ports (target c)))) eqn:H2; simpl;
    try (split; [| by intros [??]]);
    try (split; [done | intros _; apply list_elem_of_here]).
  all: destruct (truthy_port (snapshot (ports c))) eqn:H3,
                (truthy_port (snapshot (target_ports (target c)))) eqn:H4;
         simpl; intros Hin; try by apply elem_of_nil in Hin.
  all: apply list_elem_of_singleton in Hin;
         unfold rtsp_route, snapshot_route in Hin;
         injection Hin as Hs Ht; congruence.
Qed.

Lemma snapshot_route_requested (s : Server) (c : OnvifConfig) :
  snapshot_route s c ∈ spec_routes false s c
  <-> configured (snapshot (ports c))
      /\ configured (snapshot (target_ports (target c))).
Proof.
  unfold spec_routes, configured.
  destruct (truthy_port (snapshot (ports c))) eqn:H3,
           (truthy_port (snapshot (target_ports (target c)))) eqn:H4; simpl;
    try (split; [| by intros [??]]);
    try (split; [done | intros _; apply elem_of_app; right;
                        apply list_elem_of_here]).
  all: destruct (truthy_port (rtsp (ports c))) eqn:H1,
                (truthy_port (rtsp (target_ports (target c)))) eqn:H2;
         simpl; intros Hin; try by apply elem_of_nil in Hin.
  all: apply list_elem_of_singleton in Hin;
         unfold rtsp_route, snapshot_route in Hin;
         injection Hin as Hs Ht; congruence.
Qed.

(** C10: when every configured MAC address resolves, the relay routes
    requested are, device by device in configuration order, those the
    block guarded by [!useDirectUrls] pushed: none in direct-URL mode;
    otherwise the RTSP route of a device exactly when its own RTSP port
    and the target's RTSP port are both configured, and its snapshot
    route exactly when its own snapshot port and the target's snapshot
    port are both configured (a port that is absent or 0 is not
    configured). *)
Theorem relay_routes (debug : bool) (config : Config) :
  Forall (fun c => resolves config c = true) (onvif config) ->
  requested (snd (startup debug config))
  = flat_map (fun c => spec_routes (direct_mode config) (device config c) c)
             (onvif config)
  /\ (forall direct s c proxies,
        push_proxies direct s c proxies = proxies ++ spec_routes direct s c)
  /\ (forall s c,
        spec_routes true s c = []
        /\ (rtsp_route s c ∈ spec_routes false s c
            <-> configured (rtsp (ports c))
                /\ configured (rtsp (target_ports (target c))))
        /\ (snapshot_route s c ∈ spec_routes false s c
            <-> configured (snapshot (ports c))
                /\ configured (snapshot (target_ports (target c))))
        /\ (forall p, p ∈ spec_routes false s c ->
                      p = rtsp_route s c \/ p = snapshot_route s c)).
Proof.
  intros Hall. split; [| split].
  - rewrite (startup_completed debug config Hall). simpl snd.
    unfold requested at 1. rewrite !flat_map_app.
    fold (requested (flat_map start_proxy
            (flat_map (fun c => spec_routes (direct_mode config)
                                  (device config c) c) (onvif config)))).
    rewrite requested_start_proxies, flat_map_nested.
    rewrite (flat_map_nil _ (onvif config)); [| intros c; by destruct debug].
    destruct (direct_mode config);
      by destruct (map (device config) (onvif config)).
  - apply push_proxies_spec.
  - intros s c. split; [done |].
    split; [apply rtsp_route_requested |].
    split; [apply snapshot_route_requested |].
    intros p. unfold spec_routes.
    destruct (truthy_port (rtsp (ports c))
              && truthy_port (rtsp (target_ports (target c))));
      destruct (truthy_port (snapshot (ports c))
                && truthy_port (snapshot (target_ports (target c))));
      simpl; intros Hin;
      repeat (apply elem_of_cons in Hin as [->|Hin]; [auto |]);
      by apply elem_of_nil in Hin.
Qed.

(** *** The outcome of the startup routine *)

Lemma flat_map_flat_map_nil {A B C} (g : B -> list C) (f : A -> list B)
    (l : list A) :
  (forall x, flat_map g (f x) = []) -> flat_map g (flat_map f l) = [].
Proof. intros Hf. rewrite flat_map_nested. by apply flat_map_nil. Qed.

Lemma exits_app (evs1 evs2 : list event) :
  exits (evs1 ++ evs2) = exits evs1 ++ exits evs2.
Proof. apply flat_map_app. Qed.

Lemma debugged_app (evs1 evs2 : list event) :
  debugged (evs1 ++ evs2) = debugged evs1 ++ debugged evs2.
Proof. apply flat_map_app. Qed.

Lemma started_app (evs1 evs2 : list event) :
  started (evs1 ++ evs2) = started evs1 ++ started evs2.
Proof. apply flat_map_app. Qed.

Lemma exits_devices (debug direct : bool) (dev : OnvifConfig -> Server)
    (l : list OnvifConfig) :
  exits (flat_map (fun c => start_events debug direct (dev c) c) l) = [].
Proof. apply flat_map_flat_map_nil. intros c. by destruct debug. Qed.

Lemma debugged_devices (debug direct : bool) (dev : OnvifConfig -> Server)
    (l : list OnvifConfig) :
  debugged (flat_map (fun c => start_events debug direct (dev c) c) l)
  = if debug then map dev l else [].
Proof.
  unfold debugged. rewrite flat_map_nested. destruct debug.
  - by apply flat_map_singleton.
  - by apply flat_map_nil.
Qed.

Lemma started_devices (debug direct : bool) (dev : OnvifConfig -> Server)
    (l : list OnvifConfig) :
  started (flat_map (fun c => start_events debug direct (dev c) c) l)
  = map dev l.
Proof.
  unfold started. rewrite flat_map_nested.
  apply flat_map_singleton. intros c. by destruct debug.
Qed.

Lemma quiet_tail (direct : bool) (servers : list Server)
    (proxies : list Proxy) :
  exits (direct_notice direct) = []
  /\ debugged (direct_notice direct) = []
  /\ started (direct_notice direct) = []
  /\ exits (discovery_events servers) = []
  /\ debugged (discovery_events servers) = []
  /\ started (discovery_events servers) = []
  /\ exits (flat_map start_proxy proxies) = []
  /\ debugged (flat_map start_proxy proxies) = []
  /\ started (flat_map start_proxy proxies) = [].
Proof.
  repeat split; try (by destruct direct); try (by destruct servers);
    by apply flat_map_flat_map_nil.
Qed.

Lemma forallb_Forall {A} (f : A -> bool) (l : list A) :
  forallb f l = true -> Forall (fun x => f x = true) l.
Proof.
  induction l as [|x l IH]; simpl; [by constructor |].
  intros [Hx Hl]%andb_prop. constructor; [done | by apply IH].
Qed.

Lemma forallb_first_failure {A} (f : A -> bool) (l : list A) :
  forallb f l = false ->
  exists pre bad post,
    l = pre ++ bad :: post
    /\ Forall (fun x => f x = true) pre /\ f bad = false.
Proof.
  induction l as [|x l IH]; simpl; [done |].
  destruct (f x) eqn:Hx; simpl.
  - intros Hl. destruct (IH Hl) as (pre & bad & post & -> & Hpre & Hbad).
    exists (x :: pre), bad, post. split; [done |]. split; [| done].
    by constructor.
  - intros _. exists [], x, l. split; [done |]. split; [constructor | done].
Qed.

Lemma exits_completed (debug : bool) (config : Config) :
  Forall (fun c => resolves config c = true) (onvif config) ->
  startup debug config
  = (Completed, snd (startup debug config))
  /\ exits (snd (startup debug config)) = [].
Proof.
  intros Hall. rewrite (startup_completed debug config Hall).
  split; [done |]. simpl snd.
  destruct (quiet_tail (direct_mode config)
              (map (device config) (onvif config))
              (flat_map (fun c => spec_routes (direct_mode config)
                                    (device config c) c) (onvif config)))
    as (H1 & _ & _ & H2 & _ & _ & H3 & _).
  by rewrite !exits_app, H1, H2, H3, exits_devices.
Qed.

Lemma exits_exited (debug : bool) (config : Config) :
  forallb (resolves config) (onvif config) = false ->
  startup debug config
  = (Exited (-1), snd (startup debug config))
  /\ exits (snd (startup debug config)) = [(-1)%Z]
  /\ last (snd (startup debug config)) = Some (ProcessExit (-1)).
Proof.
  intros Hsome.
  destruct (forallb_first_failure _ _ Hsome)
    as (pre & bad & post & Hcfg & Hpre & Hbad).
  rewrite (startup_exited debug config pre bad post Hcfg Hpre Hbad).
  split; [done |]. simpl snd. split.
  - destruct (quiet_tail (direct_mode config) [] []) as (H1 & _).
    by rewrite !exits_app, H1, exits_devices.
  - unfold exit_events. change [?a; ?b; ?c] with ([a; b] ++ [c]).
    rewrite !app_assoc. apply last_snoc.
Qed.

(** X10: the startup routine runs to its end exactly when the MAC
    address of every configured device resolves.  Otherwise it calls
    [process.exit] once, with -1, at the first device whose address does
    not resolve, and that call is the last event; when it runs to its
    end it never calls [process.exit]. *)
Theorem startup_outcome (debug : bool) (config : Config) :
  let resolved := forallb (resolves config) (onvif config) in
  fst (startup debug config)
  = (if resolved then Completed else Exited (-1))
  /\ exits (snd (startup debug config))
     = (if resolved then [] else [(-1)%Z])
  /\ (resolved = false ->
      last (snd (startup debug config)) = Some (ProcessExit (-1))).
Proof.
  intros resolved. subst resolved.
  destruct (forallb (resolves config) (onvif config)) eqn:Hall.
  - destruct (exits_completed debug config (forallb_Forall _ _ Hall))
      as [Heq Hex].
    rewrite Heq at 1. by repeat split.
  - destruct (exits_exited debug config Hall) as (Heq & Hex & Hlast).
    rewrite Heq at 1. by repeat split.
Qed.

(** *** What the debug flag changes *)

Lemma filter_flat_map {A B} (p : B -> bool) (f : A -> list B) (l : list A) :
  List.filter p (flat_map f l) = flat_map (fun x => List.filter p (f x)) l.
Proof.
  induction l as [|x l IH]; simpl; [done |].
  by rewrite List.filter_app, IH.
Qed.

Lemma filter_id {A} (p : A -> bool) (l : list A) :
  Forall (fun x => p x = true) l -> List.filter p l = l.
Proof. induction 1 as [|x l Hx _ IH]; simpl; [done |]. by rewrite Hx, IH. Qed.

Lemma undebug_start_events (direct : bool) (s : Server) (c : OnvifConfig) :
  List.filter (fun e => negb (is_debug e)) (start_events true direct s c)
  = start_events false direct s c.
Proof. reflexivity. Qed.

Lemma undebug_start_proxies (proxies : list Proxy) :
  List.filter (fun e => negb (is_debug e)) (flat_map start_proxy proxies)
  = flat_map start_proxy proxies.
Proof. rewrite filter_flat_map. by apply flat_map_ext. Qed.

(** X11: the debug flag changes nothing but debug output.  With and
    without it the routine ends the same way, and the trace with the
    flag, once its [enableDebugOutput] calls are removed, is the trace
    without it.  With the flag, debug output is enabled on exactly the
    servers that are started, in the same order; without it, on none. *)
Theorem debug_only_adds_debug_output (config : Config) :
  fst (startup true config) = fst (startup false config)
  /\ List.filter (fun e => negb (is_debug e)) (snd (startup true config))
     = snd (startup false config)
  /\ debugged (snd (startup true config)) = started (snd (startup true config))
  /\ debugged (snd (startup false config)) = [].
Proof.
  destruct (forallb (resolves config) (onvif config)) eqn:Hall.
  - apply forallb_Forall in Hall.
    rewrite !(startup_completed _ config Hall). simpl fst. simpl snd.
    destruct (quiet_tail (direct_mode config)
                (map (device config) (onvif config))
                (flat_map (fun c => spec_routes (direct_mode config)
                                      (device config c) c) (onvif config)))
      as (_ & D1 & S1 & _ & D2 & S2 & _ & D3 & S3).
    split; [done |]. split; [| split].
    + rewrite !List.filter_app, filter_flat_map, undebug_start_proxies.
      rewrite (flat_map_ext _ _ (fun c => undebug_start_events _ _ c)).
      destruct (direct_mode config);
        by destruct (map (device config) (onvif config)).
    + by rewrite !debugged_app, !started_app, D1, D2, D3, S1, S2, S3,
        debugged_devices, started_devices.
    + by rewrite !debugged_app, D1, D2, D3, debugged_devices.
  - destruct (forallb_first_failure _ _ Hall)
      as (pre & bad & post & Hcfg & Hpre & Hbad).
    rewrite !(startup_exited _ config pre bad post Hcfg Hpre Hbad).
    simpl fst. simpl snd.
    destruct (quiet_tail (direct_mode config) [] [])
      as (_ & D1 & S1 & _).
    split; [done |]. split; [| split].
    + rewrite !List.filter_app, filter_flat_map.
      rewrite (flat_map_ext _ _ (fun c => undebug_start_events _ _ c)).
      by destruct (direct_mode config).
    + by rewrite !debugged_app, !started_app, D1, S1,
        debugged_devices, started_devices.
    + by rewrite !debugged_app, D1, debugged_devices.
Qed.

(** *** The order of devices, discovery and relays *)

Lemma milestones_app (evs1 evs2 : list event) :
  milestones (evs1 ++ evs2) = milestones evs1 ++ milestones evs2.
Proof. apply List.filter_app. Qed.

Lemma milestones_start_events (debug direct : bool) (s : Server)
    (c : OnvifConfig) :
  milestones (start_events debug direct s c)
  = [CreateServer c direct; StartServer s; Sleep 2000].
Proof. by destruct debug. Qed.

Lemma milestones_start_proxies (proxies : list Proxy) :
  milestones (flat_map start_proxy proxies) = map CreateProxy proxies.
Proof.
  unfold milestones. rewrite filter_flat_map.
  by apply flat_map_singleton.
Qed.

(** X12: when every configured MAC address resolves, the routine goes
    through three phases that never interleave: first every device, in
    configuration order, is created, started and followed by its pause;
    then the discovery server is created and started (if there is a
    device); only then are the relays created, in the order of the
    devices, the RTSP relay of a device before its snapshot relay. *)
Theorem relays_after_discovery (debug : bool) (config : Config) :
  Forall (fun c => resolves config c = true) (onvif config) ->
  milestones (snd (startup debug config))
  = flat_map (fun c => [CreateServer c (direct_mode config);
                        StartServer (device config c);
                        Sleep 2000])
             (onvif config)
    ++ match onvif config with
       | [] => []
       | _ => [CreateDiscoveryServer (map (device config) (onvif config));
               DiscoveryStart]
       end
    ++ map CreateProxy
         (flat_map (fun c => spec_routes (direct_mode config)
                               (device config c) c) (onvif config)).
Proof.
  intros Hall. rewrite (startup_completed debug config Hall). simpl snd.
  rewrite !milestones_app, milestones_start_proxies.
  unfold milestones at 2. rewrite filter_flat_map.
  rewrite (flat_map_ext _
             (fun c => [CreateServer c (direct_mode config);
                        StartServer (device config c);
                        Sleep 2000]));
    [| intros c; apply milestones_start_events].
  replace (milestones (direct_notice (direct_mode config))) with (@nil event)
    by (by destruct (direct_mode config)).
  rewrite app_nil_l. do 2 f_equal. by destruct (onvif config).
Qed.

(** *** The module body *)

Lemma routine_app `{System} (evs1 evs2 : list main_event) :
  routine (evs1 ++ evs2) = routine evs1 ++ routine evs2.
Proof. apply flat_map_app. Qed.

Lemma routine_level `{System} (debug : bool) :
  routine (if debug then [SetLevel "trace"] else []) = [].
Proof. by destruct debug. Qed.

(** X14: a configuration that cannot be used starts nothing.  Without
    [--version] and [--create-config], when no file is named, or the
    named file does not exist, or its text is not valid YAML, the module
    body logs exactly one error and returns -1: no server is created, no
    discovery server, no relay, and [process.exit] is not called. *)
Theorem unusable_configuration_starts_nothing `{System} (args : Args) :
  version args = false ->
  create_config args = false ->
  (config args = None
   \/ config args = Some ""
   \/ exists file,
        config args = Some file
        /\ (readFileSync file = ENOENT
            \/ exists configData,
                 readFileSync file = FileContent configData
                 /\ yaml_parse configData = None)) ->
  fst (main args) = Returned (Some (-1)%Z)
  /\ exists msg, routine (snd (main args)) = [LogError msg].
Proof.
  intros Hv Hc Hbad. unfold main. rewrite Hv, Hc.
  destruct Hbad as [->|[->|(file & -> & Hfile)]].
  - split; [done |]. eexists.
    simpl snd. by rewrite routine_app, routine_level.
  - split; [done |]. eexists.
    simpl snd. by rewrite routine_app, routine_level.
  - destruct (truthy_str file).
    + destruct Hfile as [->|(configData & -> & ->)];
        (split; [done |]); eexists; simpl snd;
        by rewrite routine_app, routine_level.
    + split; [done |]. eexists.
      simpl snd. by rewrite routine_app, routine_level.
Qed.

(** X15: the module body ends the process only for an unresolved MAC
    address.  If it ends with [process.exit], the exit code is -1,
    neither [--version] nor [--create-config] was given, the named file
    was read and parsed, and some configured device's MAC address does
    not resolve. *)
Theorem exit_only_for_unresolved_mac `{System} (args : Args) (code : Z) :
  fst (main args) = ProcessExited code ->
  code = (-1)%Z
  /\ version args = false
  /\ create_config args = false
  /\ exists file configData cfg,
       config args = Some file
       /\ readFileSync file = FileContent configData
       /\ yaml_parse configData = Some cfg
       /\ forallb (resolves cfg) (onvif cfg) = false.
Proof.
  unfold main.
  destruct (version args); [done |].
  destruct (create_config args); [done |].
  destruct (config args) as [file|]; [| done].
  destruct (truthy_str file); [| done].
  destruct (readFileSync file) as [configData| |] eqn:Hread; try done.
  destruct (yaml_parse configData) as [cfg|] eqn:Hparse; [| done].
  destruct (startup (debug args) cfg) as [o evs] eqn:Hstart.
  simpl fst. intros Ho.
  destruct (forallb (resolves cfg) (onvif cfg)) eqn:Hall.
  - destruct (exits_completed (debug args) cfg (forallb_Forall _ _ Hall))
      as [Heq _].
    rewrite Hstart in Heq. injection Heq as ->. discriminate Ho.
  - destruct (exits_exited (debug args) cfg Hall) as [Heq _].
    rewrite Hstart in Heq. injection Heq as ->. injection Ho as <-.
    split; [done |]. split; [done |]. split; [done |].
    by exists file, configData, cfg.
Qed.

End WithHost.

(** *** The muted output stream *)

Lemma forwarded_app (evs1 evs2 : list stream_event) :
  forwarded (evs1 ++ evs2) = forwarded evs1 ++ forwarded evs2.
Proof. apply flat_map_app. Qed.

Lemma forwarded_write (muted : option bool) (chunk : string) :
  forwarded (mutableStdout_write muted chunk)
  = if negb (default false muted) || includes chunk line_feed
    then [chunk] else [].
Proof.
  unfold mutableStdout_write.
  by destruct (negb (default false muted) || includes chunk line_feed).
Qed.

Lemma callbacks_write (muted : option bool) (chunk : string) :
  callbacks (mutableStdout_write muted chunk) = 1%nat.
Proof.
  unfold mutableStdout_write.
  by destruct (negb (default false muted) || includes chunk line_feed).
Qed.

Lemma written_cons (muted : option bool) (chunk : string)
    (chunks : list string) :
  flat_map (mutableStdout_write muted) (chunk :: chunks)
  = mutableStdout_write muted chunk
    ++ flat_map (mutableStdout_write muted) chunks.
Proof. reflexivity. Qed.

(** X13: what the dialogue's output stream lets through.  While
    [muted] is true, a chunk reaches standard output exactly when it
    contains a line feed, so typed characters are withheld and line
    ends still show; while [muted] is false or not yet assigned, every
    chunk reaches standard output, in order.  In all cases the write
    callback is called exactly once per chunk. *)
Theorem muted_stream (chunks : list string) :
  let written muted := flat_map (mutableStdout_write muted) chunks in
  forwarded (written (Some true))
  = List.filter (fun chunk => includes chunk line_feed) chunks
  /\ (forall chunk, chunk ∈ forwarded (written (Some true))
                    <-> chunk ∈ chunks /\ contains line_feed chunk)
  /\ forwarded (written (Some false)) = chunks
  /\ forwarded (written None) = chunks
  /\ forall muted, callbacks (written muted) = length chunks.
Proof.
  intros written.
  assert (Hmuted : forwarded (written (Some true))
                   = List.filter (fun chunk => includes chunk line_feed)
                                 chunks).
  { subst written. induction chunks as [|c l IH]; [done |].
    rewrite written_cons, forwarded_app, forwarded_write, IH. simpl.
    by destruct (includes c line_feed). }
  split; [exact Hmuted |]. split; [| split; [| split]].
  - intros chunk. rewrite Hmuted, list_elem_of_In, filter_In,
      <- list_elem_of_In.
    unfold includes. by rewrite Text.indexOf_contains.
  - clear Hmuted. subst written. induction chunks as [|c l IH]; [done |].
    rewrite written_cons, forwarded_app, forwarded_write. simpl.
    by rewrite IH.
  - clear Hmuted. subst written. induction chunks as [|c l IH]; [done |].
    rewrite written_cons, forwarded_app, forwarded_write. simpl.
    by rewrite IH.
  - clear Hmuted. intros muted. subst written. unfold callbacks.
    induction chunks as [|c l IH]; [done |].
    rewrite written_cons, List.filter_app, length_app, IH.
    fold (callbacks (mutableStdout_write muted c)).
    by rewrite callbacks_write.
Qed.


Import MainExamples.

Lemma both_resolve (config : Config) :
  Forall (fun c => resolves (H := host) config c = true) [channel1; channel2].
Proof. repeat constructor. Defined.

Lemma first_resolves (config : Config) :
  Forall (fun c => resolves (H := host) config c = true) [channel1].
Proof. repeat constructor. Defined.

Lemma unresolved_mac_exits_witness :
  exists evs,
    startup (H := host) false (proxied [channel1; unplugged; channel2])
    = (Exited (-1), evs)
    /\ started evs = [channel1]
    /\ discovery_servers evs = []
    /\ requested evs = [].
Proof.
  destruct (unresolved_mac_exits (H := host) false
              (proxied [channel1; unplugged; channel2])
              [channel1] unplugged [channel2] eq_refl
              (first_resolves _) eq_refl)
    as (evs & H1 & _ & _ & _ & H5 & H6 & H7).
  exists evs. auto.
Defined.

(** What the routine does when the first configured device is on no
    interface: one error line, then exit; the second device is never
    created. *)
Example unplugged_first :
  startup (H := host) true (proxied [unplugged; channel1])
  = (Exited (-1),
     [CreateServer unplugged false;
      LogError "Failed to find IP address for MAC address 02:00:00:00:00:03";
      ProcessExit (-1)]).
Proof. reflexivity. Qed.

(** C1 (as stated) fails: with an unresolvable device ahead of a
    resolvable one the process exits and the resolvable device is never
    started. *)
Lemma unresolved_mac_is_fatal :
  ~ survives_unresolved_mac (H := host) true (proxied [unplugged; channel1]).
Proof.
  unfold survives_unresolved_mac. rewrite unplugged_first.
  intros [Hcompleted _]. discriminate Hcompleted.
Qed.

Lemma sequential_startup_witness :
  exists evs,
    startup (H := host) false (proxied [channel1; channel2]) = (Completed, evs)
    /\ lifecycle evs
       = [CreateServer (H := host) channel1 false;
          StartServer (H := host) channel1; Sleep 2000;
          CreateServer (H := host) channel2 false;
          StartServer (H := host) channel2; Sleep 2000;
          CreateDiscoveryServer (H := host) [channel1; channel2];
          DiscoveryStart].
Proof.
  exact (sequential_startup (H := host) false (proxied [channel1; channel2])
           (both_resolve _)).
Defined.

(** C7 (as stated) fails for an empty device list: no discovery server
    is created. *)
Lemma empty_configuration_starts_no_discovery :
  ~ one_discovery_server (H := host) false (proxied []).
Proof. unfold one_discovery_server. simpl. discriminate. Qed.

Lemma relay_routes_witness :
  requested (snd (startup (H := host) false (proxied [channel1; channel2])))
  = [rtsp_route (H := host) channel1 channel1;
     snapshot_route (H := host) channel1 channel1;
     rtsp_route (H := host) channel2 channel2].
Proof.
  exact (proj1 (relay_routes (H := host) false (proxied [channel1; channel2])
                  (both_resolve _))).
Defined.

(** In direct-URL mode the same configuration requests no route. *)
Example direct_mode_requests_nothing :
  requested
    (snd (startup (H := host) false
            {| useDirectUrls := Some true; onvif := [channel1; channel2] |}))
  = [].
Proof. reflexivity. Qed.

(** *** Witnesses of the further properties *)

Lemma relays_after_discovery_witness :
  milestones (snd (startup (H := host) false (proxied [channel1; channel2])))
  = [CreateServer (H := host) channel1 false;
     StartServer (H := host) channel1; Sleep 2000;
     CreateServer (H := host) channel2 false;
     StartServer (H := host) channel2; Sleep 2000;
     CreateDiscoveryServer (H := host) [channel1; channel2];
     DiscoveryStart;
     CreateProxy (rtsp_route (H := host) channel1 channel1);
     CreateProxy (snapshot_route (H := host) channel1 channel1);
     CreateProxy (rtsp_route (H := host) channel2 channel2)].
Proof.
  exact (relays_after_discovery (H := host) false
           (proxied [channel1; channel2]) (both_resolve _)).
Defined.

Lemma unusable_configuration_witness :
  fst (main (H := host) (H0 := disk) (with_file "broken.yaml"))
  = Returned (Some (-1)%Z)
  /\ exists msg,
       routine (snd (main (H := host) (H0 := disk) (with_file "broken.yaml")))
       = [LogError msg].
Proof.
  refine (unusable_configuration_starts_nothing (H := host) (H0 := disk)
            (with_file "broken.yaml") eq_refl eq_refl _).
  right. right. exists "broken.yaml". split; [reflexivity |].
  right. exists "onvif: [". split; reflexivity.
Defined.

Lemma exit_only_for_unresolved_mac_witness :
  exists file configData cfg,
    config (with_file "config.yaml") = Some file
    /\ readFileSync (System := disk) file = FileContent configData
    /\ yaml_parse (System := disk) configData = Some cfg
    /\ forallb (resolves (H := host) cfg) (onvif cfg) = false.
Proof.
  exact (proj2 (proj2 (proj2
           (exit_only_for_unresolved_mac (H := host) (H0 := disk)
              (with_file "config.yaml") (-1)%Z eq_refl)))).
Defined.

End MainProofs.
